(** * GEE-Oil-Estimations: storage-tank polygon acquisition and weekly statistics

    A shallow embedding of the Python scripts of the repository:

    - [merge_tanker_jsons.py]       (module [Merger])
    - [tank_polygons_by_region.py]  (module [Fetcher]; [tank_polygons.py]
                                     holds the same [fetch_tanks])
    - [working_weekly_data.py]      (modules [Calendar], [Weekly])

    Python values are modelled as follows.  Unbounded [int]s are [Z];
    [str] is [string]; a [dict] with string keys is a [gmap string _];
    a [set] is a [gset]; a [list] is a [list].  [print] calls are not
    modelled (they have no influence on any value computed); every other
    effect (sleeping, HTTP posts, Earth Engine calls, raised exceptions)
    is explicit. *)

From Stdlib Require Import ZArith Lia Ascii String.
From stdpp Require Import gmap strings list fin_maps.

Set Warnings "-clear-no-such-hyp".
Local Open Scope Z_scope.

(* ===================================================================== *)
(** * Python values and exceptions *)
(* ===================================================================== *)

(** The property values that occur in the feature collections of this
    repository: [fetch_tanks] writes an integer [tank_id] and string
    [location] / [content] / [substance]; [dict.get] yields [None] for a
    missing key, and JSON [null] is loaded as [None]. *)
Inductive pyval : Type :=
  | PyNone
  | PyInt (n : Z)
  | PyStr (s : string).

#[global] Instance pyval_eq_dec : EqDecision pyval.
Proof. solve_decision. Defined.

Definition pyval_encode (v : pyval) : unit + (Z + string) :=
  match v with
  | PyNone => inl tt
  | PyInt n => inr (inl n)
  | PyStr s => inr (inr s)
  end.

Definition pyval_decode (x : unit + (Z + string)) : pyval :=
  match x with
  | inl _ => PyNone
  | inr (inl n) => PyInt n
  | inr (inr s) => PyStr s
  end.

#[global] Instance pyval_countable : Countable pyval.
Proof.
  apply (inj_countable' pyval_encode pyval_decode).
  intros []; reflexivity.
Defined.

(** Exceptions that the scripts raise or catch. *)
Inductive exn : Type :=
  | ValueError
  | ZeroDivisionError
  | OverflowError
  | RequestTimeout         (* requests.exceptions.Timeout *)
  | RequestException       (* requests.exceptions.RequestException, not a timeout *)
  | JSONDecodeError        (* json.JSONDecodeError *)
  | EEException            (* ee.EEException *)
  | OtherException.        (* any other subclass of Exception *)

#[global] Instance exn_eq_dec : EqDecision exn.
Proof. solve_decision. Defined.

(** The outcome of running a piece of Python: a value or a raised
    exception. *)
Inductive result (A : Type) : Type :=
  | Ok (a : A)
  | Raise (e : exn).
Arguments Ok {A} a.
Arguments Raise {A} e.

(** A GeoJSON feature: a geometry and a property mapping. *)
Record Feature (G : Type) : Type := mkFeature {
  geometry : G;
  properties : gmap string pyval
}.
Arguments mkFeature {G} _ _.
Arguments geometry {G} _.
Arguments properties {G} _.

(* ===================================================================== *)
(** * merge_tanker_jsons.py *)
(* ===================================================================== *)

Module Merger.

Section WithGeometry.
Context {G : Type}.

(** [feature['properties'].get('tank_id')] *)
Definition get_tank_id (feature : Feature G) : pyval :=
  default PyNone (properties feature !! "tank_id"%string).

(** The [for feature in all_features] loop, with the two mutable
    locals [seen_ids] and [unique_features] threaded through. *)
Fixpoint dedup_loop (all_features : list (Feature G))
    (seen_ids : gset pyval) (unique_features : list (Feature G))
    : gset pyval * list (Feature G) :=
  match all_features with
  | [] => (seen_ids, unique_features)
  | feature :: rest =>
      let tank_id := get_tank_id feature in
      if decide (tank_id ∉ seen_ids)
      then dedup_loop rest ({[tank_id]} ∪ seen_ids) (unique_features ++ [feature])
      else dedup_loop rest seen_ids unique_features
  end.

(** What the script computes from the two loaded collections: the
    merged feature list and the three printed counts. *)
Record MergeReport : Type := mkReport {
  merged : list (Feature G);
  total_count : Z;
  unique_count : Z;
  duplicates_removed : Z
}.

Definition unique_features (all_features : list (Feature G)) : list (Feature G) :=
  snd (dedup_loop all_features ∅ []).

Definition merge_tanker_jsons (data1 data2 : list (Feature G)) : MergeReport :=
  let all_features := data1 ++ data2 in
  let unique := unique_features all_features in
  {| merged := unique;
     total_count := Z.of_nat (length all_features);
     unique_count := Z.of_nat (length unique);
     duplicates_removed :=
       Z.of_nat (length all_features) - Z.of_nat (length unique) |}.

(** The features of [fs] whose identifier is [t]. *)
Definition with_id (t : pyval) (fs : list (Feature G)) : list (Feature G) :=
  filter (λ f, get_tank_id f = t) fs.

(** The PolygonSet invariant: identifiers are unique within a set. *)
Definition unique_ids (fs : list (Feature G)) : Prop :=
  NoDup (get_tank_id <$> fs).

(** A feature without identifier: no [tank_id] key, or [tank_id] is
    [None]. *)
Definition idless (f : Feature G) : Prop :=
  properties f !! "tank_id"%string = None ∨
  properties f !! "tank_id"%string = Some PyNone.

#[global] Instance idless_dec f : Decision (idless f).
Proof. unfold idless. apply _. Defined.

(** ** The loop as a pure function of the ids already seen *)

Fixpoint keep_unseen (seen : gset pyval) (fs : list (Feature G))
    : list (Feature G) :=
  match fs with
  | [] => []
  | f :: rest =>
      if decide (get_tank_id f ∉ seen)
      then f :: keep_unseen ({[get_tank_id f]} ∪ seen) rest
      else keep_unseen seen rest
  end.

End WithGeometry.

End Merger.

(* ===================================================================== *)
(** * Sequencing of computations that may raise *)
(* ===================================================================== *)

#[global] Instance result_ret : MRet result := λ A a, Ok a.

#[global] Instance result_bind : MBind result := λ A B k r,
  match r with
  | Ok a => k a
  | Raise e => Raise e
  end.

(** [try: body except Exception as e: handler e] *)
Definition try_except {A : Type} (body : result A) (handler : exn → result A)
    : result A :=
  match body with
  | Ok a => Ok a
  | Raise e => handler e
  end.

(** A [for] loop whose body may raise: the accumulator is threaded through
    and the first exception leaves the loop. *)
Fixpoint for_each {A S : Type} (body : S → A → result S) (xs : list A) (s : S)
    : result S :=
  match xs with
  | [] => Ok s
  | x :: rest =>
      match body s x with
      | Ok s' => for_each body rest s'
      | Raise e => Raise e
      end
  end.

(** [range(n)] *)
Definition range (n : Z) : list Z := seqZ 0 n.

(* ===================================================================== *)
(** * The part of Python's [datetime] that working_weekly_data.py uses *)
(* ===================================================================== *)

Module Calendar.

(** [datetime(year, month, day)]: the scripts build every value with a
    zero time of day and only ever add whole days, so the time of day
    stays zero and is left out. *)
Record datetime : Type := mkDate { year : Z; month : Z; day : Z }.

#[global] Instance datetime_eq_dec : EqDecision datetime.
Proof. solve_decision. Defined.

Definition MAXORDINAL : Z := 3652059.

Definition DAYS_IN_MONTH : list Z :=
  [-1; 31; 28; 31; 30; 31; 30; 31; 31; 30; 31; 30; 31].

Definition DAYS_BEFORE_MONTH : list Z :=
  [-1; 0; 31; 59; 90; 120; 151; 181; 212; 243; 273; 304; 334].

Definition table (t : list Z) (i : Z) : Z := nth (Z.to_nat i) t 0.

Definition is_leap (y : Z) : bool :=
  (y mod 4 =? 0) && (negb (y mod 100 =? 0) || (y mod 400 =? 0)).

Definition days_before_year (y : Z) : Z :=
  let y := y - 1 in
  y * 365 + y / 4 - y / 100 + y / 400.

Definition days_in_month (y m : Z) : Z :=
  if (m =? 2) && is_leap y then 29 else table DAYS_IN_MONTH m.

Definition days_before_month (y m : Z) : Z :=
  table DAYS_BEFORE_MONTH m + (if (2 <? m) && is_leap y then 1 else 0).

Definition ymd2ord (y m d : Z) : Z :=
  days_before_year y + days_before_month y m + d.

Definition DI400Y : Z := 146097.
Definition DI100Y : Z := 36524.
Definition DI4Y : Z := 1461.

Definition ord2ymd (n : Z) : Z * Z * Z :=
  let n := n - 1 in
  let n400 := n / DI400Y in
  let n := n mod DI400Y in
  let y := n400 * 400 + 1 in
  let n100 := n / DI100Y in
  let n := n mod DI100Y in
  let n4 := n / DI4Y in
  let n := n mod DI4Y in
  let n1 := n / 365 in
  let n := n mod 365 in
  let y := y + n100 * 100 + n4 * 4 + n1 in
  if (n1 =? 4) || (n100 =? 4) then (y - 1, 12, 31)
  else
    let leapyear := (n1 =? 3) && (negb (n4 =? 24) || (n100 =? 3)) in
    let m := Z.shiftr (n + 50) 5 in
    let preceding :=
      table DAYS_BEFORE_MONTH m + (if (2 <? m) && leapyear then 1 else 0) in
    if n <? preceding then
      let m := m - 1 in
      let preceding :=
        preceding
        - (table DAYS_IN_MONTH m + (if (m =? 2) && leapyear then 1 else 0)) in
      (y, m, n - preceding + 1)
    else (y, m, n - preceding + 1).

Definition toordinal (d : datetime) : Z := ymd2ord (year d) (month d) (day d).

Definition fromordinal (n : Z) : datetime :=
  let '(y, m, d) := ord2ymd n in mkDate y m d.

(** [d.weekday()]: Monday is 0. *)
Definition weekday (d : datetime) : Z := (toordinal d + 6) mod 7.

(** [timedelta(days=n)] *)
Definition timedelta (days : Z) : result Z :=
  if Z.abs days <=? 999999999 then Ok days else Raise OverflowError.

(** [d + delta] for a whole number of days *)
Definition add (d : datetime) (delta_days : Z) : result datetime :=
  let o := toordinal d + delta_days in
  if (0 <? o) && (o <=? MAXORDINAL) then Ok (fromordinal o)
  else Raise OverflowError.

(** [a < b] *)
Definition ltb (a b : datetime) : bool :=
  (year a <? year b)
  || ((year a =? year b)
      && ((month a <? month b)
          || ((month a =? month b) && (day a <? day b)))).

Definition digit (n : Z) : ascii := ascii_of_nat (48 + Z.to_nat (n mod 10)).

Definition pad2 (n : Z) : string :=
  String (digit (n / 10)) (String (digit n) EmptyString).

Definition pad4 (n : Z) : string :=
  String (digit (n / 1000)) (String (digit (n / 100)) (pad2 n)).

(** [d.strftime('%Y-%m-%d')], for the years 1000..9999 (the padding of
    smaller years depends on the platform's C library). *)
Definition strftime (d : datetime) : string :=
  pad4 (year d) +:+ "-" +:+ pad2 (month d) +:+ "-" +:+ pad2 (day d).

End Calendar.

(* ===================================================================== *)
(** * working_weekly_data.py *)
(* ===================================================================== *)

Module Weekly.
Import Calendar.

Definition USERNAME : string := "2samenpoli".
Definition START_DATE : datetime := mkDate 2024 1 3.
Definition END_DATE : datetime := mkDate 2024 3 1.
Definition COMPOSITE_INTERVAL_DAYS : Z := 7.
Definition EIA_RELEASE_WEEKDAY : Z := 2.

Definition REGION_ASSETS : list string :=
  (λ region, "users/" +:+ USERNAME +:+ "/oil-tankers/" +:+ region) <$>
  [ "fujairah_uae"; "rotterdam_netherlands"; "jurong_island_singapore";
    "houston_ship_channel_usa"; "saldanha_bay_south_africa";
    "zhoushan_china"; "cushing_ok" ]%string.

(** ** generate_date_list *)

(** The [while current < end] loop.  It does not terminate when
    [interval_days <= 0] and [start < end], so the loop takes fuel: [None]
    means that the fuel ran out before the loop ended. *)
Fixpoint generate_loop (fuel : nat) (current end_ : datetime)
    (interval_days : Z) (dates : list string)
    : option (result (list string)) :=
  match fuel with
  | O => None
  | S fuel' =>
      if ltb current end_ then
        let dates := dates ++ [strftime current] in
        match delta ← timedelta interval_days; add current delta with
        | Ok next => generate_loop fuel' next end_ interval_days dates
        | Raise e => Some (Raise e)
        end
      else Some (Ok dates)
  end.

Definition generate_date_list (fuel : nat) (start end_ : datetime)
    (interval_days : Z) : option (result (list string)) :=
  generate_loop fuel start end_ interval_days [].

(** The successive values of [current] for which the loop body runs. *)
Fixpoint window_starts (fuel : nat) (current end_ : datetime)
    (interval_days : Z) : list datetime :=
  match fuel with
  | O => []
  | S fuel' =>
      if ltb current end_ then
        current ::
        match delta ← timedelta interval_days; add current delta with
        | Ok next => window_starts fuel' next end_ interval_days
        | Raise _ => []
        end
      else []
  end.

(** Python's [<] on [str]: the order of the code points. *)
Definition str_lt (a b : string) : Prop := String.ltb a b = true.

(** A sequence is strictly increasing when each element is below the one
    that follows it. *)
Fixpoint strictly_increasing {A : Type} (lt : A → A → Prop) (l : list A)
    : Prop :=
  match l with
  | a :: (b :: _) as rest => lt a b ∧ strictly_increasing lt rest
  | _ => True
  end.

Definition date_lt (a b : datetime) : Prop := toordinal a < toordinal b.

(** The nine Wednesdays from 2024-01-03 to 2024-02-28. *)
Definition configured_dates : list string :=
  [ "2024-01-03"; "2024-01-10"; "2024-01-17"; "2024-01-24"; "2024-01-31";
    "2024-02-07"; "2024-02-14"; "2024-02-21"; "2024-02-28" ]%string.

(** ** Earth Engine, as far as the script observes it *)

(** The client library builds server-side expressions lazily; the only
    calls that reach the backend are [ee.Initialize], [x.size().getInfo()]
    and [task.start()].  [getInfo] may answer differently each time it is
    asked, so its oracle takes the number of [getInfo] calls made before. *)
Record EarthEngine : Type := mkEE {
  Collection : Type;
  ee_Initialize : result unit;
  ee_FeatureCollection : string → Collection;
  ee_merge : Collection → Collection → Collection;
  size_getInfo : nat → Collection → result Z;
  task_start : result unit
}.

Inductive event : Type :=
  | EvInitialize
  | EvGetInfo
  | EvTaskStart.

Section WithEarthEngine.
Variable ee : EarthEngine.

(** [initialize_ee] *)
Definition initialize_ee : bool * list event :=
  match ee_Initialize ee with
  | Ok _ => (true, [EvInitialize])
  | Raise _ => (false, [EvInitialize])
  end.

(** The [for asset in REGION_ASSETS] loop of [load_storage_polygons];
    [calls] counts the [getInfo] calls made so far. *)
Fixpoint load_loop (assets : list string) (calls : nat)
    (valid_collections : list (Collection ee)) (missing_assets : list string)
    : list (Collection ee) * list string * nat :=
  match assets with
  | [] => (valid_collections, missing_assets, calls)
  | asset :: rest =>
      let collection := ee_FeatureCollection ee asset in
      match size_getInfo ee calls collection with
      | Ok count =>
          if 0 <? count
          then load_loop rest (S calls)
                 (valid_collections ++ [collection]) missing_assets
          else load_loop rest (S calls) valid_collections missing_assets
      | Raise EEException =>
          load_loop rest (S calls) valid_collections (missing_assets ++ [asset])
      | Raise _ =>
          load_loop rest (S calls) valid_collections (missing_assets ++ [asset])
      end
  end.

(** [load_storage_polygons]: [None] is Python's [None]; the second
    component is the number of [getInfo] calls made. *)
Definition load_storage_polygons (assets : list string)
    : option (Collection ee) * nat :=
  let '(valid_collections, missing_assets, calls) :=
    load_loop assets 0%nat [] [] in
  match valid_collections with
  | [] => (None, calls)
  | first :: others =>
      let merged := foldl (ee_merge ee) first others in
      match size_getInfo ee calls merged with
      | Ok total_count => (Some merged, S calls)
      | Raise _ => (None, S calls)
      end
  end.

(** [run_extraction]; the composites and the statistics are lazy
    server-side expressions and contribute no call to the backend before
    [task.start()]. *)
Definition run_extraction (fuel : nat) (assets : list string)
    (start end_ : datetime) (interval_days : Z)
    : option (result bool * list event) :=
  let '(initialized, tr0) := initialize_ee in
  if negb initialized then Some (Ok false, tr0)
  else
    let '(storage_polygons, calls) := load_storage_polygons assets in
    let tr1 := tr0 ++ replicate calls EvGetInfo in
    match storage_polygons with
    | None => Some (Ok false, tr1)
    | Some _ =>
        match generate_date_list fuel start end_ interval_days with
        | None => None
        | Some (Raise e) => Some (Raise e, tr1)
        | Some (Ok dates) =>
            match task_start ee with
            | Ok _ => Some (Ok true, tr1 ++ [EvTaskStart])
            | Raise e => Some (Raise e, tr1 ++ [EvTaskStart])
            end
        end
    end.

(** The module run as a script: the weekday check at import time, then
    [run_extraction] under [if __name__ == "__main__"]. *)
Definition script (fuel : nat) (assets : list string)
    (start end_ : datetime) (interval_days : Z)
    : option (result bool * list event) :=
  if decide (weekday start ≠ EIA_RELEASE_WEEKDAY)
  then Some (Raise ValueError, [])
  else run_extraction fuel assets start end_ interval_days.

(** ** Specification-level notions for the asset loader *)

(** The assets that resolve with a positive feature count, the [i]-th
    asset being asked for its size by the [i]-th [getInfo] call. *)
Fixpoint accepted_from (calls : nat) (assets : list string)
    : list (Collection ee) :=
  match assets with
  | [] => []
  | asset :: rest =>
      match size_getInfo ee calls (ee_FeatureCollection ee asset) with
      | Ok count =>
          if 0 <? count
          then ee_FeatureCollection ee asset :: accepted_from (S calls) rest
          else accepted_from (S calls) rest
      | Raise _ => accepted_from (S calls) rest
      end
  end.

Definition accepted (assets : list string) : list (Collection ee) :=
  accepted_from 0%nat assets.

(** The answer to the size query on the merged collection, which is the
    call made after one call per asset. *)
Definition merged_size_answer (assets : list string) : result Z :=
  match accepted assets with
  | [] => Raise OtherException
  | first :: others =>
      size_getInfo ee (length assets) (foldl (ee_merge ee) first others)
  end.

End WithEarthEngine.

(** A small backend for running the loader: a collection is the list of
    its tank ids, or [None] for a handle to an asset that does not exist;
    merging concatenates.  Assets "a", "b" and "empty" exist.  When
    [overloaded] is set, the backend answers the first two size queries
    and fails every later one. *)
Definition region_tanks (asset : string) : option (list Z) :=
  if decide (asset = "a"%string) then Some [1; 2]
  else if decide (asset = "b"%string) then Some [3]
  else if decide (asset = "empty"%string) then Some []
  else None.

Definition tanks_of (c : option (list Z)) : list Z := default [] c.

Definition list_backend (overloaded : bool) : EarthEngine :=
  {| Collection := option (list Z);
     ee_Initialize := Ok tt;
     ee_FeatureCollection := region_tanks;
     ee_merge := λ a b, Some (tanks_of a ++ tanks_of b);
     size_getInfo := λ calls c,
       match c with
       | None => Raise EEException
       | Some tanks =>
           if overloaded && (2 <=? calls)%nat then Raise OtherException
           else Ok (Z.of_nat (length tanks))
       end;
     task_start := Ok tt |}.

Definition list_size (c : option (list Z)) : Z := Z.of_nat (length (tanks_of c)).

End Weekly.

(* ===================================================================== *)
(** * tank_polygons_by_region.py *)
(* ===================================================================== *)

Module Fetcher.

Definition LOCATIONS : list (string * string) :=
  [ ("Fujairah, UAE", "25.15,56.30,25.25,56.40");
    ("Rotterdam, Netherlands", "51.85,3.90,51.99,4.50");
    ("Jurong Island, Singapore", "1.22,103.65,1.30,103.75");
    ("Houston Ship Channel, USA", "29.70,-95.30,29.80,-94.90");
    ("Saldanha Bay, South Africa", "-33.05,17.85,-32.95,18.05");
    ("Zhoushan, China", "29.85,121.90,30.10,122.30");
    ("Cushing, OK", "35.95,-97.45,36.15,-96.95") ]%string.

Definition OVERPASS_SERVERS : list string :=
  [ "https://overpass-api.de/api/interpreter";
    "https://overpass.kumi.systems/api/interpreter";
    "https://overpass.openstreetmap.ru/api/interpreter" ]%string.

Definition nl : string := String (ascii_of_nat 10) EmptyString.
Definition dq : string := String (ascii_of_nat 34) EmptyString.

(** [build_query] *)
Definition build_query (bbox : string) : string :=
  nl +:+ "[out:json][timeout:180];" +:+ nl
  +:+ "(" +:+ nl
  +:+ "  way[" +:+ dq +:+ "man_made" +:+ dq +:+ "=" +:+ dq +:+ "storage_tank"
      +:+ dq +:+ "](" +:+ bbox +:+ ");" +:+ nl
  +:+ "  relation[" +:+ dq +:+ "man_made" +:+ dq +:+ "=" +:+ dq
      +:+ "storage_tank" +:+ dq +:+ "](" +:+ bbox +:+ ");" +:+ nl
  +:+ ");" +:+ nl
  +:+ "out body;" +:+ nl
  +:+ ">;" +:+ nl
  +:+ "out skel qt;" +:+ nl.

(** ** What the script uses of shapely

    Coordinates are the numbers of the response body ([Num], compared with
    [==] only).  Building a polygon, asking whether it is valid, computing
    its area and mapping it to GeoJSON may each raise. *)
Class Shapely : Type := {
  Num : Type;
  Num_eq_dec :: EqDecision Num;
  Poly : Type;
  Geom : Type;
  Polygon : list (Num * Num) → result Poly;
  is_valid : Poly → result bool;
  (** [poly.area > 0] *)
  area_positive : Poly → result bool;
  mapping : Poly → result Geom
}.

Inductive event : Type :=
  | EvSleep (seconds : Z)
  | EvPost (server : string) (query : string).

#[global] Instance event_eq_dec : EqDecision event.
Proof. solve_decision. Defined.

Section WithShapely.
Context `{Shapely}.

Definition Coord : Type := Num * Num.

(** An element of the response body: [type] is "node", "way" or
    anything else; a way may lack its "nodes" and its "tags". *)
Inductive RawElement : Type :=
  | ElNode (id : Z) (lon lat : Num)
  | ElWay (id : Z) (nodes : option (list Z)) (tags : option (gmap string string))
  | ElOther (type : string) (id : Z).

(** The decoded response body. *)
Record Response : Type := mkResponse {
  remark : option string;
  elements : option (list RawElement)
}.

(** The HTTP layer: the answer to the post made by attempt number
    [attempt] to [server], after [raise_for_status] and [json]: the
    decoded body or the exception raised on the way. *)
Definition Network : Type := Z → string → string → result Response.

(** [nodes = {el['id']: (el['lon'], el['lat']) for el in elements if
    el['type'] == 'node'}]: a later node replaces an earlier one with
    the same id. *)
Definition build_nodes (elements : list RawElement) : gmap Z Coord :=
  foldl (λ nodes el,
           match el with
           | ElNode id lon lat => <[id := (lon, lat)]> nodes
           | _ => nodes
           end) ∅ elements.

(** [[nodes[n] for n in el['nodes'] if n in nodes]] *)
Definition resolve (nodes : gmap Z Coord) (ids : list Z) : list Coord :=
  omap (λ n, nodes !! n) ids.

(** [if coords[0] != coords[-1]: coords.append(coords[0])]; only reached
    with at least three coordinates. *)
Definition close_ring (coords : list Coord) : list Coord :=
  match head coords, last coords with
  | Some first, Some final =>
      if decide (first ≠ final) then coords ++ [first] else coords
  | _, _ => coords
  end.

Definition way_properties (location_name : string) (id : Z)
    (tags : option (gmap string string)) : gmap string pyval :=
  let properties : gmap string pyval :=
    <["location"%string := PyStr location_name]>
      (<["tank_id"%string := PyInt id]> ∅) in
  match tags with
  | None => properties
  | Some tags =>
      let properties :=
        match tags !! "content"%string with
        | Some content => <["content"%string := PyStr content]> properties
        | None => properties
        end in
      match tags !! "substance"%string with
      | Some substance => <["substance"%string := PyStr substance]> properties
      | None => properties
      end
  end.

(** The body of the inner [try]. *)
Definition make_feature (location_name : string) (id : Z)
    (tags : option (gmap string string)) (coords : list Coord)
    : result (option (Feature Geom)) :=
  poly ← Polygon coords;
  valid ← is_valid poly;
  if valid : bool then
    positive ← area_positive poly;
    if positive : bool then
      geometry ← mapping poly;
      Ok (Some (mkFeature geometry (way_properties location_name id tags)))
    else Ok None
  else Ok None.

(** The validation of one candidate ring (lines 91-119): the length
    test, the closing of the ring and the inner [try] with its
    [except Exception: continue]. *)
Definition validate (location_name : string) (id : Z)
    (tags : option (gmap string string)) (coords : list Coord)
    : result (option (Feature Geom)) :=
  if Z.of_nat (length coords) <? 3 then Ok None
  else
    let coords := close_ring coords in
    try_except (make_feature location_name id tags coords)
               (λ _, Ok None).

(** The body of [for el in elements]. *)
Definition process_element (nodes : gmap Z Coord) (location_name : string)
    (features : list (Feature Geom)) (el : RawElement)
    : result (list (Feature Geom)) :=
  match el with
  | ElWay id (Some node_ids) tags =>
      accepted ← validate location_name id tags (resolve nodes node_ids);
      match accepted with
      | Some feature => Ok (features ++ [feature])
      | None => Ok features
      end
  | _ => Ok features
  end.

(** From the decoded body to the feature list (lines 81-119). *)
Definition assemble (location_name : string) (data : Response)
    : result (list (Feature Geom)) :=
  let elements := default [] (elements data) in
  let nodes := build_nodes elements in
  for_each (process_element nodes location_name) elements [].

(** [servers[attempt % len(servers)]] *)
Definition pick_server (servers : list string) (attempt : Z) : result string :=
  if decide (servers = []) then Raise ZeroDivisionError
  else
    match servers !! Z.to_nat (attempt mod Z.of_nat (length servers)) with
    | Some server => Ok server
    | None => Raise OtherException
    end.

(** The sleep that precedes the post of an attempt. *)
Definition backoff (attempt : Z) : list event :=
  if 0 <? attempt then [EvSleep (5 * attempt)] else [].

(** The [for attempt in range(max_retries)] loop of [fetch_tanks], with
    the effects it performs.  All four [except] clauses take the same
    decision: return [[]] on the last attempt, go on otherwise. *)
Fixpoint fetch_loop (servers : list string) (network : Network)
    (location_name bbox : string) (max_retries : Z) (attempts : list Z)
    : result (list (Feature Geom)) * list event :=
  match attempts with
  | [] => (Ok [], [])
  | attempt :: rest =>
      match pick_server servers attempt with
      | Raise e => (Raise e, [])
      | Ok server =>
          let query := build_query bbox in
          let effects := backoff attempt ++ [EvPost server query] in
          match data ← network attempt server query;
                assemble location_name data with
          | Ok features => (Ok features, effects ++ [EvSleep 2])
          | Raise RequestTimeout
          | Raise RequestException
          | Raise JSONDecodeError
          | Raise _ =>
              if attempt =? max_retries - 1 then (Ok [], effects)
              else
                let '(outcome, later) :=
                  fetch_loop servers network location_name bbox
                             max_retries rest in
                (outcome, effects ++ later)
          end
      end
  end.

Definition fetch_tanks_on (servers : list string) (network : Network)
    (location_name bbox : string) (max_retries : Z)
    : result (list (Feature Geom)) * list event :=
  fetch_loop servers network location_name bbox max_retries
             (range max_retries).

(** [fetch_tanks], which reads the module's [OVERPASS_SERVERS]. *)
Definition fetch_tanks (network : Network)
    (location_name bbox : string) (max_retries : Z)
    : result (list (Feature Geom)) * list event :=
  fetch_tanks_on OVERPASS_SERVERS network location_name bbox max_retries.

(** ** Notions used to state the properties *)

(** The servers posted to, in order. *)
Definition posts (trace : list event) : list string :=
  omap (λ ev, match ev with EvPost server _ => Some server | _ => None end)
       trace.

(** The effects of attempt number [attempt], as the specification
    describes them. *)
Definition attempt_effects (servers : list string) (bbox : string)
    (attempt : Z) : list event :=
  backoff attempt ++
  [EvPost (default ""%string
             (servers !! Z.to_nat (attempt mod Z.of_nat (length servers))))
          (build_query bbox)].

(** A failure of one of the three classes the specification names. *)
Definition transient (e : exn) : Prop :=
  e = RequestTimeout ∨ e = RequestException ∨ e = JSONDecodeError.

(** Number of distinct points of a ring. *)
Definition distinct_points (coords : list Coord) : nat :=
  length (remove_dups coords).

(** ** What is assumed of shapely

    The plane-geometry notions of the specification, for rings as they
    are handed to [Polygon]. *)
Class PlaneGeometry : Type := {
  self_intersecting : list Coord → Prop;
  zero_area : list Coord → Prop;
  simple_closed_quadrilateral : list Coord → Prop
}.

(** shapely's side of the contract: a polygon it reports as valid does
    not intersect itself, one it reports with positive area does not
    have zero area, one it reports as valid with positive area has at
    least three distinct points, and a simple closed quadrilateral (five
    coordinates, the last repeating the first) is built, reported valid
    with positive area, and mapped. *)
Class ShapelyContract `{PlaneGeometry} : Prop := {
  valid_is_simple : ∀ ring poly,
    Polygon ring = Ok poly → is_valid poly = Ok true →
    ¬ self_intersecting ring;
  positive_is_not_flat : ∀ ring poly,
    Polygon ring = Ok poly → area_positive poly = Ok true →
    ¬ zero_area ring;
  accepted_has_three_points : ∀ ring poly,
    Polygon ring = Ok poly → is_valid poly = Ok true →
    area_positive poly = Ok true →
    (3 <= distinct_points ring)%nat;
  quadrilateral_is_closed : ∀ ring,
    simple_closed_quadrilateral ring →
    length ring = 5%nat ∧ head ring = last ring;
  quadrilateral_is_accepted : ∀ ring,
    simple_closed_quadrilateral ring →
    ∃ poly geometry,
      Polygon ring = Ok poly ∧ is_valid poly = Ok true ∧
      area_positive poly = Ok true ∧ mapping poly = Ok geometry
}.

End WithShapely.

End Fetcher.

(* ===================================================================== *)
(** * An exact geometry on the integer grid

    An instance of the shapely interface on which [fetch_tanks] can be
    run: coordinates are integers, the area is the shoelace sum and
    validity is decided by testing every pair of edges. *)
(* ===================================================================== *)

Module Grid.
Import Fetcher.

Definition point : Type := Z * Z.

(** Twice the signed area of the triangle [a b c]. *)
Definition turn (a b c : point) : Z :=
  (b.1 - a.1) * (c.2 - a.2) - (b.2 - a.2) * (c.1 - a.1).

(** [c] lies in the bounding box of [a] and [b]. *)
Definition boxed (a b c : point) : bool :=
  (Z.min a.1 b.1 <=? c.1) && (c.1 <=? Z.max a.1 b.1)
  && (Z.min a.2 b.2 <=? c.2) && (c.2 <=? Z.max a.2 b.2).

(** [c] lies on the segment [a b]. *)
Definition on_segment (a b c : point) : bool :=
  (turn a b c =? 0) && boxed a b c.

(** The segments [a b] and [c d] have a point in common. *)
Definition segments_meet (a b c d : point) : bool :=
  ((Z.sgn (turn a b c) * Z.sgn (turn a b d) <? 0)
   && (Z.sgn (turn c d a) * Z.sgn (turn c d b) <? 0))
  || on_segment a b c || on_segment a b d
  || on_segment c d a || on_segment c d b.

Fixpoint edges (ring : list point) : list (point * point) :=
  match ring with
  | a :: (b :: _) as rest => (a, b) :: edges rest
  | _ => []
  end.

(** Twice the signed area enclosed by a closed ring. *)
Definition shoelace2 (ring : list point) : Z :=
  foldr (λ '(a, b) acc, a.1 * b.2 - b.1 * a.2 + acc) 0 (edges ring).

(** Edges [i < j] of a ring of [n] edges touch where they should not:
    consecutive edges may share only their common end point, the last and
    the first edge likewise, and any other two edges must be disjoint. *)
Definition clash (n : nat) (e f : nat * (point * point)) : bool :=
  let '(i, (a, b)) := e in
  let '(j, (c, d)) := f in
  if (j =? i + 1)%nat then on_segment a b d || on_segment c d a
  else if (i =? 0)%nat && (j =? n - 1)%nat
       then on_segment a b c || on_segment c d b
       else segments_meet a b c d.

Definition self_intersects (ring : list point) : bool :=
  let es := imap (λ i e, (i, e)) (edges ring) in
  existsb (λ e, existsb (λ f, (e.1 <? f.1)%nat && clash (length es) e f) es) es.

Definition distinct (ring : list point) : nat := length (remove_dups ring).

Definition build (ring : list point) : result (list point) :=
  if (length ring <? 4)%nat then Raise ValueError else Ok ring.

Definition valid (ring : list point) : result bool :=
  Ok (negb (self_intersects ring) && (3 <=? distinct ring)%nat).

Definition positive (ring : list point) : result bool :=
  Ok (negb (shoelace2 ring =? 0)).

Definition grid_shapely : Shapely :=
  {| Num := Z;
     Num_eq_dec := _;
     Poly := list point;
     Geom := list point;
     Polygon := build;
     is_valid := valid;
     area_positive := positive;
     mapping := Ok |}.

Definition simple_quadrilateral (ring : list point) : Prop :=
  length ring = 5%nat ∧ head ring = last ring ∧
  self_intersects ring = false ∧ shoelace2 ring ≠ 0 ∧ distinct ring = 4%nat.

Definition grid_geometry : @PlaneGeometry grid_shapely :=
  @Build_PlaneGeometry grid_shapely
    (λ ring : list point, self_intersects ring = true)
    (λ ring : list point, shoelace2 ring = 0)
    simple_quadrilateral.

Definition unit_square : list point := [(0, 0); (1, 0); (1, 1); (0, 1)].
Definition bow_tie : list point := [(0, 0); (1, 1); (1, 0); (0, 1)].
Definition flat_ring : list point := [(0, 0); (1, 1); (2, 2); (3, 3)].
Definition two_points : list point := [(0, 0); (1, 1); (0, 0); (1, 1)].

(** A response body: four nodes at the corners of [corners] (ids 1 to 4)
    and the way 7 through them. *)
Definition body_of (corners : list point) : @Response grid_shapely :=
  @mkResponse grid_shapely None
    (Some (imap (λ i '(x, y), @ElNode grid_shapely (Z.of_nat (S i)) x y) corners
           ++ [@ElWay grid_shapely 7 (Some [1; 2; 3; 4]) None])).

(** A network on which every post times out. *)
Definition always_down : @Network grid_shapely :=
  λ _ _ _, Raise RequestTimeout.

(** A network whose first post fails with a malformed body and whose later
    posts answer [body]. *)
Definition second_try (body : @Response grid_shapely) : @Network grid_shapely :=
  λ attempt _ _, if attempt <? 1 then Raise JSONDecodeError else Ok body.

End Grid.

(* ===================================================================== *)
(** * Notions used to state further properties of the fetcher *)
(* ===================================================================== *)

Module FetcherNotions.
Import Fetcher.

(** Total number of seconds slept in a run. *)
Definition sleeping (trace : list event) : Z :=
  foldr (λ ev total,
           match ev with
           | EvSleep seconds => seconds + total
           | EvPost _ _ => total
           end) 0 trace.

Section WithShapely.
Context `{Shapely}.

(** The coordinates that the node elements of a body give to node [id],
    in the order of the body. *)
Definition node_coords (id : Z) (elements : list RawElement) : list Coord :=
  omap (λ el,
          match el with
          | ElNode id' lon lat =>
              if decide (id' = id) then Some (lon, lat) else None
          | _ => None
          end) elements.

(** The ids of the way elements that carry a node list, in the order of
    the body. *)
Definition way_ids (elements : list RawElement) : list Z :=
  omap (λ el,
          match el with
          | ElWay id (Some _) _ => Some id
          | _ => None
          end) elements.

End WithShapely.

End FetcherNotions.

(* ===================================================================== *)
(** * Notions used to state further properties of the calendar *)
(* ===================================================================== *)

Module CalendarNotions.
Import Calendar.

(** The dates that [datetime(year, month, day)] accepts. *)
Definition valid_date (d : datetime) : Prop :=
  1 ≤ year d ≤ 9999 ∧ 1 ≤ month d ≤ 12
  ∧ 1 ≤ day d ≤ days_in_month (year d) (month d).

#[global] Instance valid_date_dec d : Decision (valid_date d).
Proof. unfold valid_date. apply _. Defined.

(** Month and day are in range for the year, whatever the year is. *)
Definition well_formed (d : datetime) : Prop :=
  1 ≤ month d ≤ 12 ∧ 1 ≤ day d ≤ days_in_month (year d) (month d).

(** The end of [ord2ymd]: month and day of day number [n] (from 0) of a
    year, leap or not. *)
Definition month_day (n : Z) (leapyear : bool) : Z * Z :=
  let m := Z.shiftr (n + 50) 5 in
  let preceding :=
    table DAYS_BEFORE_MONTH m + (if (2 <? m) && leapyear then 1 else 0) in
  if n <? preceding then
    let m := m - 1 in
    let preceding :=
      preceding
      - (table DAYS_IN_MONTH m + (if (m =? 2) && leapyear then 1 else 0)) in
    (m, n - preceding + 1)
  else (m, n - preceding + 1).

(** [month_day] answers a month and a day of that month that lie [n] days
    after the first of January. *)
Definition month_day_ok (leapyear : bool) (n : Z) : bool :=
  let '(m, d) := month_day n leapyear in
  (1 <=? m) && (m <=? 12) && (1 <=? d)
  && (d <=? table DAYS_IN_MONTH m + (if (m =? 2) && leapyear then 1 else 0))
  && (table DAYS_BEFORE_MONTH m + (if (2 <? m) && leapyear then 1 else 0) + d
      =? n + 1).

(** [test] holds on the [p] integers from [lo] on. *)
Fixpoint all_from (p : positive) (test : Z → bool) (lo : Z) : bool :=
  match p with
  | xH => test lo
  | xO q => all_from q test lo && all_from q test (lo + Zpos q)
  | xI q =>
      test lo && all_from q test (lo + 1) && all_from q test (lo + 1 + Zpos q)
  end.

End CalendarNotions.

(* ===================================================================== *)
(** * Notions used to state further properties of the weekly script *)
(* ===================================================================== *)

Module WeeklyNotions.
Import Calendar.


(** Number of steps of [interval] days from [start] that stay strictly
    before [end_]. *)
Definition window_count (start end_ : datetime) (interval : Z) : nat :=
  Z.to_nat ((toordinal end_ - toordinal start + interval - 1) / interval).

Section WithEarthEngine.
Import Weekly.
Variable ee : EarthEngine.

(** The assets whose size query raises, the [i]-th asset being asked by
    the [i]-th [getInfo] call. *)
Fixpoint missing_from (calls : nat) (assets : list string) : list string :=
  match assets with
  | [] => []
  | asset :: rest =>
      match size_getInfo ee calls (ee_FeatureCollection ee asset) with
      | Ok _ => missing_from (S calls) rest
      | Raise _ => asset :: missing_from (S calls) rest
      end
  end.

End WithEarthEngine.

End WeeklyNotions.

(* ===================================================================== *)
(** * The pixel mask of [mask_s2_clouds]

    Earth Engine evaluates the mask expression pixel by pixel on the
    server; these are its operations on one integer pixel value:
    [bitwiseAnd] is the bitwise and, [eq] and [neq] answer 1 or 0, and
    [And] answers 1 exactly when both operands are not 0.  A pixel is
    kept by [updateMask] when the mask is not 0. *)
(* ===================================================================== *)

Module Pixels.

Definition bitwiseAnd (a b : Z) : Z := Z.land a b.
Definition eq (a b : Z) : Z := if a =? b then 1 else 0.
Definition neq (a b : Z) : Z := if a =? b then 0 else 1.
Definition And (a b : Z) : Z := if (a =? 0) || (b =? 0) then 0 else 1.

Definition cloud_bit : Z := Z.shiftl 1 10.
Definition cirrus_bit : Z := Z.shiftl 1 11.

(** [mask], from the value [qa] of the band QA60 *)
Definition mask (qa : Z) : Z :=
  And (eq (bitwiseAnd qa cloud_bit) 0) (eq (bitwiseAnd qa cirrus_bit) 0).

(** [scl_mask], from the value [scl] of the band SCL *)
Definition scl_mask (scl : Z) : Z :=
  And (And (And (neq scl 3) (neq scl 8)) (neq scl 9)) (neq scl 11).

(** [combined_mask]; [scl] is [None] when selecting the band SCL
    raises. *)
Definition combined_mask (qa : Z) (scl : option Z) : Z :=
  match scl with
  | Some scl => And (mask qa) (scl_mask scl)
  | None => mask qa
  end.

End Pixels.

(* ===================================================================== *)
(** * File names and asset names

    The region script derives a file name from a location name
    (tank_polygons_by_region.py, lines 172-177); the upload script derives
    an asset id from the file path (upload_to_gee.py, lines 43-45) with
    [os.path.basename] and [os.path.splitext], here those of [posixpath].
    Text is handled as its list of characters. *)
(* ===================================================================== *)

Module Naming.

Definition chars (s : string) : list ascii := list_ascii_of_string s.
Definition text (l : list ascii) : string := string_of_list_ascii l.

Definition lower_char (c : ascii) : ascii :=
  let n := nat_of_ascii c in
  if (65 <=? n)%nat && (n <=? 90)%nat then ascii_of_nat (n + 32) else c.

(** [s.lower()], for ASCII text such as the configured location names *)
Definition lower (s : list ascii) : list ascii := lower_char <$> s.

(** [s.replace(old, new)] for a pattern [old] of one character *)
Definition replace (old : ascii) (new : list ascii) (s : list ascii)
    : list ascii :=
  s ≫= (λ c, if decide (c = old) then new else [c]).

Definition safe_chars (location_name : list ascii) : list ascii :=
  replace "."%char []
    (replace ","%char []
       (replace " "%char ["_"%char] (lower location_name))).

Definition safe_name (location_name : string) : string :=
  text (safe_chars (chars location_name)).

Definition output_dir : string := "data/regions".

(** [f"{output_dir}/{safe_name}.geojson"] *)
Definition region_filename (location_name : string) : string :=
  output_dir +:+ "/" +:+ safe_name location_name +:+ ".geojson".

(** [s.rfind(c)]: the index of the last [c] in [s], or -1 *)
Fixpoint rfind (c : ascii) (s : list ascii) : Z :=
  match s with
  | [] => -1
  | a :: rest =>
      let i := rfind c rest in
      if 0 <=? i then i + 1 else if decide (a = c) then 0 else -1
  end.

(** [posixpath.basename] *)
Definition basename (p : list ascii) : list ascii :=
  let i := rfind "/"%char p + 1 in
  drop (Z.to_nat i) p.

(** The loop of [genericpath._splitext] that skips leading dots: it
    returns at the first character before [dotIndex] that is not a dot;
    [fuel] is [dotIndex - filenameIndex]. *)
Fixpoint skip_dots (fuel : nat) (p : list ascii) (filenameIndex dotIndex : Z)
    : option (list ascii * list ascii) :=
  match fuel with
  | O => None
  | S fuel' =>
      if decide (p !! Z.to_nat filenameIndex ≠ Some "."%char)
      then Some (take (Z.to_nat dotIndex) p, drop (Z.to_nat dotIndex) p)
      else skip_dots fuel' p (filenameIndex + 1) dotIndex
  end.

(** [posixpath.splitext] *)
Definition splitext (p : list ascii) : list ascii * list ascii :=
  let sepIndex := rfind "/"%char p in
  let dotIndex := rfind "."%char p in
  if sepIndex <? dotIndex then
    let filenameIndex := sepIndex + 1 in
    match skip_dots (Z.to_nat (dotIndex - filenameIndex)) p
            filenameIndex dotIndex with
    | Some split => split
    | None => (p, [])
    end
  else (p, []).

(** [region_name] of [upload_region] *)
Definition region_name (filepath : string) : string :=
  let filename := basename (chars filepath) in
  text (fst (splitext filename)).

(** [USERNAME] of upload_to_gee.py *)
Definition USERNAME : string := "2samenpoli".

(** [asset_id] of [upload_region] *)
Definition asset_id (filepath : string) : string :=
  "users/" +:+ USERNAME +:+ "/oil-tankers/" +:+ region_name filepath.

End Naming.

(* ===================================================================== *)
(** * The two acquisition scripts

    The module-level code of tank_polygons_by_region.py (lines 164-192)
    and of tank_polygons.py (lines 157-178).  Both call [fetch_tanks] with
    its default of three attempts for every configured location; the
    sleeps and posts of the fetches are left out here. *)
(* ===================================================================== *)

Module Scripts.
Import Fetcher Naming.

Section WithShapely.
Context `{Shapely}.

(** The network as the scripts meet it: one per location fetched. *)
Definition Networks : Type := string → Network.

(** Writing one feature collection to a file ([FeatureCollection], [open],
    [geojson.dump] and, in the region script, [os.path.getsize]): done, or
    the exception raised on the way. *)
Definition Disk : Type := string → list (Feature Geom) → result unit.

Record Summary : Type := mkSummary {
  total_tanks : Z;
  successful_regions : Z;
  written : list (string * list (Feature Geom))
}.

(** The [for location_name, bbox in LOCATIONS.items()] loop of
    tank_polygons_by_region.py. *)
Fixpoint save_regions (net : Networks) (disk : Disk)
    (locations : list (string * string)) (summary : Summary)
    : result Summary :=
  match locations with
  | [] => Ok summary
  | (location_name, bbox) :: rest =>
      features ← fst (fetch_tanks (net location_name) location_name bbox 3);
      match features with
      | [] => save_regions net disk rest summary
      | _ :: _ =>
          let filename := region_filename location_name in
          match disk filename features with
          | Ok _ =>
              save_regions net disk rest
                {| total_tanks :=
                     total_tanks summary + Z.of_nat (length features);
                   successful_regions := successful_regions summary + 1;
                   written := written summary ++ [(filename, features)] |}
          | Raise _ => save_regions net disk rest summary
          end
      end
  end.

Definition region_script (net : Networks) (disk : Disk) : result Summary :=
  save_regions net disk LOCATIONS (mkSummary 0 0 []).

(** The [for location_name, bbox in LOCATIONS.items()] loop of
    tank_polygons.py. *)
Fixpoint collect (net : Networks) (locations : list (string * string))
    (all_features : list (Feature Geom)) : result (list (Feature Geom)) :=
  match locations with
  | [] => Ok all_features
  | (location_name, bbox) :: rest =>
      features ← fst (fetch_tanks (net location_name) location_name bbox 3);
      collect net rest (all_features ++ features)
  end.

(** tank_polygons.py: the collected features and whether the file was
    saved. *)
Definition combined_script (net : Networks) (disk : Disk)
    : result (list (Feature Geom) * bool) :=
  all_features ← collect net LOCATIONS [];
  match disk "data/oil_tanks.geojson"%string all_features with
  | Ok _ => Ok (all_features, true)
  | Raise _ => Ok (all_features, false)
  end.

(** What one location contributes: the features of its fetch. *)
Definition fetched (net : Networks) (location : string * string)
    : list (Feature Geom) :=
  match fst (fetch_tanks (net location.1) location.1 location.2 3) with
  | Ok features => features
  | Raise _ => []
  end.

(** What the region script would write for a location: the file name and
    the features. *)
Definition candidate (net : Networks) (location : string * string)
    : string * list (Feature Geom) :=
  (region_filename location.1, fetched net location).

(** The region script writes a candidate when it has features and the
    disk takes it. *)
Definition saved (disk : Disk) (file : string * list (Feature Geom)) : bool :=
  match file.2 with
  | [] => false
  | _ :: _ =>
      match disk file.1 file.2 with
      | Ok _ => true
      | Raise _ => false
      end
  end.

(** Number of tanks in a list of written files. *)
Definition tanks_in (files : list (string * list (Feature Geom))) : Z :=
  foldr (λ file total, Z.of_nat (length file.2) + total) 0 files.

End WithShapely.

End Scripts.

(* ===================================================================== *)
(** * upload_to_gee.py *)
(* ===================================================================== *)

Module Upload.
Import Naming.

Definition REGIONS_DIR : string := "data/regions".

Inductive event : Type :=
  | EvInitialize
  | EvRead (filepath : string)
  | EvStart (asset_id : string).

#[global] Instance event_eq_dec : EqDecision event.
Proof. solve_decision. Defined.

Section WithWorld.
(** A feature as decoded from a file, and as Earth Engine holds it. *)
Variables (F EF : Type).

(** A decoded file, as far as the script looks at it: [data.get('type')]
    and the list under "features", [None] when the key is missing or
    null. *)
Record Doc : Type := mkDoc {
  doc_type : pyval;
  doc_features : option (list F)
}.

(** What the script calls outside itself.  A file may read differently
    each time, so [read_json] ([open] and [json.load]) takes the number of
    reads made before.  [toAsset], [task_start] and [task_status] take the
    asset id; [task_status] stands for the two status queries of lines
    91-92 with their lookups, and answers [Ok] when neither raises. *)
Record World : Type := mkWorld {
  ee_Initialize : result unit;
  glob : list string;
  read_json : nat → string → result Doc;
  ee_Feature : F → result EF;
  ee_FeatureCollection : list EF → result unit;
  toAsset : string → result unit;
  task_start : string → result unit;
  task_status : string → result unit
}.

Variable w : World.

(** [validate_geojson], as the read number [reads] *)
Definition validate_geojson (reads : nat) (filepath : string) : bool :=
  match read_json w reads filepath with
  | Ok data =>
      if decide (doc_type data ≠ PyStr "FeatureCollection") then false
      else
        match default [] (doc_features data) with
        | [] => false
        | _ :: _ => true
        end
  | Raise JSONDecodeError => false
  | Raise _ => false
  end.

(** The conversion block of [upload_region] (lines 67-78). *)
Definition convert (geojson_data : Doc) : result unit :=
  listed ← match doc_features geojson_data with
           | Some listed => Ok listed
           | None => Raise OtherException
           end;
  features ← for_each (λ features feat,
                         ee_feature ← ee_Feature w feat;
                         Ok (features ++ [ee_feature])) listed [];
  ee_FeatureCollection w features.

(** [upload_region]: the answer, the effects and the number of reads made
    afterwards. *)
Definition upload_region (reads : nat) (filepath : string)
    : bool * list event * nat :=
  let asset := asset_id filepath in
  if negb (validate_geojson reads filepath)
  then (false, [EvRead filepath], S reads)
  else
    let effects := [EvRead filepath; EvRead filepath] in
    match read_json w (S reads) filepath with
    | Raise _ => (false, effects, S (S reads))
    | Ok geojson_data =>
        match convert geojson_data with
        | Raise _ => (false, effects, S (S reads))
        | Ok _ =>
            match toAsset w asset with
            | Raise _ => (false, effects, S (S reads))
            | Ok _ =>
                match task_start w asset with
                | Raise _ => (false, effects ++ [EvStart asset], S (S reads))
                | Ok _ =>
                    match task_status w asset with
                    | Raise _ =>
                        (false, effects ++ [EvStart asset], S (S reads))
                    | Ok _ =>
                        (true, effects ++ [EvStart asset], S (S reads))
                    end
                end
            end
        end
    end.

(** The [for filepath in geojson_files] loop of [upload_all_regions]. *)
Fixpoint upload_loop (files : list string) (reads : nat)
    (successful failed : Z) (trace : list event)
    : Z * Z * list event :=
  match files with
  | [] => (successful, failed, trace)
  | filepath :: rest =>
      let '(uploaded, effects, reads) := upload_region reads filepath in
      if uploaded : bool
      then upload_loop rest reads (successful + 1) failed (trace ++ effects)
      else upload_loop rest reads successful (failed + 1) (trace ++ effects)
  end.

(** [upload_all_regions]: the answer, the two counts and the effects. *)
Definition upload_all_regions : bool * Z * Z * list event :=
  match ee_Initialize w with
  | Raise _ => (false, 0, 0, [EvInitialize])
  | Ok _ =>
      let geojson_files := glob w in
      match geojson_files with
      | [] => (false, 0, 0, [EvInitialize])
      | _ :: _ =>
          let '(successful, failed, trace) :=
            upload_loop geojson_files 0 0 0 [EvInitialize] in
          (failed =? 0, successful, failed, trace)
      end
  end.

End WithWorld.

(** A world with two region files, of which the second is not a feature
    collection; Earth Engine takes everything. *)
Definition two_files : World nat nat :=
  {| ee_Initialize := Ok tt;
     glob := ["data/regions/cushing_ok.geojson";
              "data/regions/broken.geojson"]%string;
     read_json := λ _ filepath,
       if decide (filepath = "data/regions/cushing_ok.geojson"%string)
       then Ok (mkDoc nat (PyStr "FeatureCollection") (Some [1%nat; 2%nat]))
       else Ok (mkDoc nat (PyStr "Feature") None);
     ee_Feature := λ feat, Ok feat;
     ee_FeatureCollection := λ _, Ok tt;
     toAsset := λ _, Ok tt;
     task_start := λ _, Ok tt;
     task_status := λ _, Ok tt |}.

End Upload.

(* ===================================================================== *)
(** * Properties of the merger *)
(* ===================================================================== *)

Section MergerProperties.
Import Merger.
Context {G : Type}.
Implicit Types (fs gs : list (Feature G)) (seen : gset pyval).

Lemma dedup_loop_keep_unseen fs : ∀ seen acc,
  snd (dedup_loop fs seen acc) = acc ++ keep_unseen seen fs.
Proof.
  induction fs as [|f rest IH]; intros seen acc; simpl.
  - by rewrite app_nil_r.
  - case_decide.
    + rewrite IH, <- app_assoc. reflexivity.
    + apply IH.
Qed.

Lemma unique_features_keep_unseen fs :
  unique_features fs = keep_unseen ∅ fs.
Proof. unfold unique_features. by rewrite dedup_loop_keep_unseen. Qed.

Lemma keep_unseen_sublist fs : ∀ seen, sublist (keep_unseen seen fs) fs.
Proof.
  induction fs as [|f rest IH]; intros seen; simpl.
  - constructor.
  - case_decide.
    + apply sublist_skip, IH.
    + apply sublist_cons, IH.
Qed.

Lemma with_id_cons t (f : Feature G) fs :
  with_id t (f :: fs) =
    if decide (get_tank_id f = t) then f :: with_id t fs else with_id t fs.
Proof. unfold with_id. by rewrite filter_cons. Qed.

Lemma keep_unseen_seen t fs : ∀ seen,
  t ∈ seen → with_id t (keep_unseen seen fs) = [].
Proof.
  induction fs as [|f rest IH]; intros seen Hin; simpl; [done|].
  case_decide as Hf.
  - rewrite with_id_cons. case_decide as Heq.
    + subst t. contradiction.
    + apply IH. set_solver.
  - by apply IH.
Qed.

Lemma keep_unseen_first t fs : ∀ seen,
  t ∉ seen → with_id t (keep_unseen seen fs) = take 1 (with_id t fs).
Proof.
  induction fs as [|f rest IH]; intros seen Hnin; simpl; [done|].
  rewrite (with_id_cons t f rest).
  case_decide as Hf.
  - rewrite with_id_cons. case_decide as Heq.
    + simpl. f_equal. rewrite take_0. apply keep_unseen_seen. set_solver.
    + apply IH. set_solver.
  - case_decide as Heq.
    + subst t. contradiction.
    + by apply IH.
Qed.

Lemma keep_unseen_fresh fs : ∀ seen,
  NoDup (get_tank_id <$> fs) →
  (∀ f, f ∈ fs → get_tank_id f ∉ seen) →
  keep_unseen seen fs = fs.
Proof.
  induction fs as [|f rest IH]; intros seen Hnd Hfresh; simpl; [done|].
  rewrite fmap_cons in Hnd. apply NoDup_cons in Hnd as [Hf Hnd].
  rewrite decide_True by (apply Hfresh; left).
  f_equal. apply IH; [done|].
  intros g Hg. rewrite elem_of_union, elem_of_singleton.
  intros [Heq | Hin].
  - apply Hf. rewrite <- Heq. by apply list_elem_of_fmap_2.
  - by apply (Hfresh g); [right|].
Qed.

Lemma keep_unseen_all_seen fs : ∀ seen,
  (∀ f, f ∈ fs → get_tank_id f ∈ seen) → keep_unseen seen fs = [].
Proof.
  induction fs as [|f rest IH]; intros seen Hall; simpl; [done|].
  rewrite decide_False by (intros Hn; apply Hn, Hall; left).
  apply IH. intros g Hg. apply Hall. by right.
Qed.

Lemma keep_unseen_app fs gs : ∀ seen,
  keep_unseen seen (fs ++ gs) =
    keep_unseen seen fs ++
    keep_unseen (seen ∪ list_to_set (get_tank_id <$> fs)) gs.
Proof.
  induction fs as [|f rest IH]; intros seen; simpl.
  - f_equal. set_solver.
  - case_decide as Hf.
    + simpl. f_equal. rewrite IH. do 2 f_equal. set_solver.
    + rewrite IH. do 2 f_equal. set_solver.
Qed.

Lemma get_tank_id_insert (g : G) (v : pyval) (other : gmap string pyval) :
  get_tank_id (mkFeature g (<["tank_id"%string := v]> other)) = v.
Proof. unfold get_tank_id. simpl. by rewrite lookup_insert_eq. Qed.

Lemma idless_iff (f : Feature G) : idless f ↔ get_tank_id f = PyNone.
Proof.
  unfold idless, get_tank_id.
  destruct (properties f !! "tank_id"%string) as [v|]; simpl.
  - split; [intros [|]; congruence | intros ->; by right].
  - split; [done | intros _; by left].
Qed.

(** C2.  The merger concatenates the two inputs in order and keeps, for
    each tank id, exactly the first feature carrying it, as it stands:
    the result is a subsequence of the concatenation, and its features
    with any given id are the first feature of the concatenation with
    that id and no other.  The geometry is of an arbitrary type [G] on
    which the merger has no operation, so no geometry is ever compared.
    The three counts are the length of the concatenation, the length of
    the result and their difference.  In particular, merging the sets
    with ids [1; 2] and [2; 3] yields the feature with id 1, the one
    with id 2 from the first set and the one with id 3, and the counts
    are 4, 3 and 1. *)
Theorem merger_keeps_first_per_id (data1 data2 : list (Feature G)) :
  let report := merge_tanker_jsons data1 data2 in
  sublist (merged report) (data1 ++ data2)
  ∧ (∀ t, with_id t (merged report) = take 1 (with_id t (data1 ++ data2)))
  ∧ total_count report = Z.of_nat (length data1) + Z.of_nat (length data2)
  ∧ unique_count report = Z.of_nat (length (merged report))
  ∧ duplicates_removed report = total_count report - unique_count report
  ∧ (∀ (g1 g2 g2' g3 : G) (p1 p2 p2' p3 : gmap string pyval),
       let f1 := mkFeature g1 (<["tank_id"%string := PyInt 1]> p1) in
       let f2 := mkFeature g2 (<["tank_id"%string := PyInt 2]> p2) in
       let f2' := mkFeature g2' (<["tank_id"%string := PyInt 2]> p2') in
       let f3 := mkFeature g3 (<["tank_id"%string := PyInt 3]> p3) in
       let example := merge_tanker_jsons [f1; f2] [f2'; f3] in
       merged example = [f1; f2; f3]
       ∧ total_count example = 4
       ∧ unique_count example = 3
       ∧ duplicates_removed example = 1).
Proof.
  cbn zeta. unfold merge_tanker_jsons. cbn [merged total_count unique_count duplicates_removed].
  rewrite unique_features_keep_unseen.
  split; [apply keep_unseen_sublist|].
  split; [intros t; apply keep_unseen_first; set_solver|].
  split; [rewrite length_app; lia|].
  split; [done|]. split; [done|].
  intros g1 g2 g2' g3 p1 p2 p2' p3.
  assert (keep_unseen ∅
            [mkFeature g1 (<["tank_id"%string := PyInt 1]> p1);
             mkFeature g2 (<["tank_id"%string := PyInt 2]> p2);
             mkFeature g2' (<["tank_id"%string := PyInt 2]> p2');
             mkFeature g3 (<["tank_id"%string := PyInt 3]> p3)]
          = [mkFeature g1 (<["tank_id"%string := PyInt 1]> p1);
             mkFeature g2 (<["tank_id"%string := PyInt 2]> p2);
             mkFeature g3 (<["tank_id"%string := PyInt 3]> p3)]) as Hex.
  { cbn [keep_unseen]. rewrite !get_tank_id_insert.
    rewrite decide_True by set_solver.
    rewrite decide_True by set_solver.
    rewrite decide_False by set_solver.
    rewrite decide_True by set_solver.
    reflexivity. }
  rewrite unique_features_keep_unseen. cbn [app].
  rewrite Hex. cbn [length]. split; [done|]. split; [done|]. by split.
Qed.

(** C3.  Merging a polygon set whose tank ids are pairwise distinct with
    itself gives back that very set, so its size does not change. *)
Theorem merger_idempotent (S : list (Feature G)) :
  unique_ids S →
  merged (merge_tanker_jsons S S) = S
  ∧ unique_count (merge_tanker_jsons S S) = Z.of_nat (length S).
Proof.
  intros Hnd. unfold merge_tanker_jsons. cbn [merged unique_count].
  assert (unique_features (S ++ S) = S) as ->; [|done].
  rewrite unique_features_keep_unseen, keep_unseen_app.
  rewrite keep_unseen_fresh by (done || set_solver).
  rewrite keep_unseen_all_seen; [by rewrite app_nil_r|].
  intros f Hf. apply elem_of_union_r, elem_of_list_to_set.
  by apply list_elem_of_fmap_2.
Qed.

(** C9.  A feature whose properties lack [tank_id] gets the identifier
    [None], like one whose [tank_id] is [None]; of all such features of
    the input only the first is kept, whatever their geometries, so
    that when there are two or more of them exactly one survives. *)
Theorem merger_collapses_idless (fs : list (Feature G)) :
  (∀ f : Feature G,
     properties f !! "tank_id"%string = None → get_tank_id f = PyNone)
  ∧ (∀ f : Feature G, idless f ↔ get_tank_id f = PyNone)
  ∧ filter idless (unique_features fs) = take 1 (filter idless fs)
  ∧ ((2 <= length (filter idless fs))%nat →
     length (filter idless (unique_features fs)) = 1%nat).
Proof.
  split; [intros f Hf; unfold get_tank_id; by rewrite Hf|].
  split; [apply idless_iff|].
  assert (filter idless (unique_features fs) = take 1 (filter idless fs)) as Heq.
  { rewrite !(list_filter_iff idless (λ f, get_tank_id f = PyNone))
      by apply idless_iff.
    rewrite unique_features_keep_unseen.
    apply (keep_unseen_first PyNone). set_solver. }
  split; [done|].
  intros Hlen. rewrite Heq, length_take. lia.
Qed.

End MergerProperties.

(* ===================================================================== *)
(** * Properties of the weekly statistics script *)
(* ===================================================================== *)

Section DateListProperties.
Import Calendar Weekly.

Lemma generate_loop_more_fuel fuel : ∀ current end_ interval dates outcome extra,
  generate_loop fuel current end_ interval dates = Some outcome →
  generate_loop (fuel + extra) current end_ interval dates = Some outcome.
Proof.
  induction fuel as [|fuel IH]; intros current end_ interval dates outcome extra;
    simpl; [done|].
  destruct (ltb current end_); [|done].
  destruct (timedelta interval ≫= add current); [|done].
  apply IH.
Qed.

Lemma generate_loop_window_starts fuel : ∀ current end_ interval dates result,
  generate_loop fuel current end_ interval dates = Some (Ok result) →
  result = dates ++ (strftime <$> window_starts fuel current end_ interval).
Proof.
  induction fuel as [|fuel IH]; intros current end_ interval dates result;
    simpl; [done|].
  destruct (ltb current end_).
  - destruct (timedelta interval ≫= add current) as [next|e]; [|done].
    intros Hrun. rewrite (IH _ _ _ _ _ Hrun), <- app_assoc. reflexivity.
  - intros [= <-]. by rewrite app_nil_r.
Qed.

Lemma generate_configured :
  generate_date_list 10 START_DATE END_DATE COMPOSITE_INTERVAL_DAYS
  = Some (Ok configured_dates).
Proof. vm_compute. reflexivity. Qed.

(** C1, as the code has it.  For the anchor date 2024-01-03, the end
    date 2024-03-01 and the interval of 7 days, [generate_date_list]
    returns (with any fuel from 10 on) the nine dates from 2024-01-03 to
    2024-02-28; the sequence is strictly increasing, both as strings
    and as the dates they were formatted from. *)
Theorem generate_date_list_configured :
  (∀ extra,
     generate_date_list (10 + extra) START_DATE END_DATE COMPOSITE_INTERVAL_DAYS
     = Some (Ok configured_dates))
  ∧ length configured_dates = 9%nat
  ∧ strictly_increasing str_lt configured_dates
  ∧ configured_dates
    = strftime <$> window_starts 10 START_DATE END_DATE COMPOSITE_INTERVAL_DAYS
  ∧ strictly_increasing date_lt
      (window_starts 10 START_DATE END_DATE COMPOSITE_INTERVAL_DAYS).
Proof.
  split.
  { intros extra. unfold generate_date_list.
    apply generate_loop_more_fuel. exact generate_configured. }
  split; [reflexivity|].
  split; [vm_compute; tauto|].
  split; [vm_compute; reflexivity|].
  vm_compute. tauto.
Qed.

(** C1, as the specification states it, fails: no amount of fuel makes
    [generate_date_list] return a sequence of length 8 for the
    configured dates. *)
Lemma generate_date_list_not_eight :
  ¬ ∃ fuel dates,
      generate_date_list fuel START_DATE END_DATE COMPOSITE_INTERVAL_DAYS
      = Some (Ok dates)
      ∧ length dates = 8%nat
      ∧ strictly_increasing str_lt dates.
Proof.
  intros (fuel & dates & Hrun & Hlen & _).
  unfold generate_date_list in Hrun.
  apply (generate_loop_more_fuel _ _ _ _ _ _ 10) in Hrun.
  pose proof (generate_loop_more_fuel _ _ _ _ _ _ fuel generate_configured) as Hnine.
  unfold generate_date_list in Hnine.
  replace (10 + fuel)%nat with (fuel + 10)%nat in Hnine by lia.
  rewrite Hnine in Hrun. injection Hrun as <-. discriminate Hlen.
Qed.

End DateListProperties.

Section ScriptProperties.
Import Calendar Weekly.
Variable ee : EarthEngine.

Lemma run_extraction_starts_with_initialize (fuel : nat)
    (assets : list string) (start end_ : datetime) (interval_days : Z)
    outcome trace :
  run_extraction ee fuel assets start end_ interval_days = Some (outcome, trace) →
  head trace = Some EvInitialize.
Proof.
  unfold run_extraction, initialize_ee.
  destruct (ee_Initialize ee); simpl; [|by intros [= <- <-]].
  destruct (load_storage_polygons ee assets) as [[merged|] calls];
    [|by intros [= <- <-]].
  destruct (generate_date_list fuel start end_ interval_days) as [[dates|e]|];
    [|by intros [= <- <-] | done].
  destruct (task_start ee); by intros [= <- <-].
Qed.

(** C8.  When the weekday of the anchor date is not the reference
    weekday (2, Wednesday), the script raises [ValueError] without any
    call to the backend: no initialisation, no size query, no export.
    When the weekday matches, the check raises nothing and the script
    is [run_extraction], whose first call to the backend is the
    initialisation.  The configured anchor 2024-01-03 is a Wednesday. *)
Theorem script_checks_weekday_first (fuel : nat) (assets : list string)
    (start end_ : datetime) (interval_days : Z) :
  (weekday start ≠ EIA_RELEASE_WEEKDAY →
     script ee fuel assets start end_ interval_days
     = Some (Raise ValueError, []))
  ∧ (weekday start = EIA_RELEASE_WEEKDAY →
       script ee fuel assets start end_ interval_days
       = run_extraction ee fuel assets start end_ interval_days)
  ∧ (∀ outcome trace,
       run_extraction ee fuel assets start end_ interval_days
       = Some (outcome, trace) →
       head trace = Some EvInitialize)
  ∧ EIA_RELEASE_WEEKDAY = 2
  ∧ weekday START_DATE = EIA_RELEASE_WEEKDAY.
Proof.
  unfold script. split; [|split; [|split]].
  - intros Hbad. by rewrite decide_True.
  - intros Hgood. by rewrite decide_False by (intros Hn; by apply Hn).
  - apply run_extraction_starts_with_initialize.
  - split; reflexivity.
Qed.

End ScriptProperties.

Section AssetLoaderProperties.
Import Weekly.
Variable ee : EarthEngine.
Implicit Types (assets : list string) (c : Collection ee).

Lemma load_loop_accepted assets : ∀ calls valid missing,
  ∃ missing',
    load_loop ee assets calls valid missing
    = (valid ++ accepted_from ee calls assets, missing',
       (calls + length assets)%nat).
Proof.
  induction assets as [|asset rest IH]; intros calls valid missing; simpl.
  - exists missing. by rewrite app_nil_r, Nat.add_0_r.
  - destruct (size_getInfo ee calls (ee_FeatureCollection ee asset))
      as [count|e].
    + destruct (0 <? count).
      * destruct (IH (S calls) (valid ++ [ee_FeatureCollection ee asset]) missing)
          as [missing' ->].
        exists missing'. rewrite <- app_assoc. simpl.
        by rewrite Nat.add_succ_r.
      * destruct (IH (S calls) valid missing) as [missing' ->].
        exists missing'. by rewrite Nat.add_succ_r.
    + destruct (IH (S calls) valid (missing ++ [asset])) as [missing' Hrest].
      exists missing'. rewrite Nat.add_succ_r.
      destruct e; exact Hrest.
Qed.

Lemma load_storage_polygons_unfold assets :
  load_storage_polygons ee assets =
    match accepted ee assets with
    | [] => (None, length assets)
    | first :: others =>
        match size_getInfo ee (length assets) (foldl (ee_merge ee) first others) with
        | Ok _ => (Some (foldl (ee_merge ee) first others), S (length assets))
        | Raise _ => (None, S (length assets))
        end
    end.
Proof.
  unfold load_storage_polygons, accepted.
  destruct (load_loop_accepted assets 0%nat [] []) as [missing' ->].
  reflexivity.
Qed.

Lemma elem_of_accepted_from assets : ∀ calls c,
  c ∈ accepted_from ee calls assets ↔
  ∃ (i : nat) asset count,
    assets !! i = Some asset ∧ c = ee_FeatureCollection ee asset ∧
    size_getInfo ee (calls + i) c = Ok count ∧ 0 < count.
Proof.
  induction assets as [|asset rest IH]; intros calls c; simpl.
  - split; [by intros ?%elem_of_nil | by intros (i & ? & ? & ? & _)].
  - assert ((∃ (i : nat) a count,
               (asset :: rest) !! i = Some a ∧ c = ee_FeatureCollection ee a ∧
               size_getInfo ee (calls + i) c = Ok count ∧ 0 < count)
            ↔ (∃ count, c = ee_FeatureCollection ee asset ∧
                   size_getInfo ee calls c = Ok count ∧ 0 < count)
              ∨ c ∈ accepted_from ee (S calls) rest) as ->.
    { rewrite IH. split.
      - intros ([|i] & a & count & Hi & Hc & Hq & Hpos).
        + left. injection Hi as <-. exists count.
          by rewrite Nat.add_0_r in Hq.
        + right. exists i, a, count. simpl in Hi.
          by rewrite Nat.add_succ_r in Hq.
      - intros [(count & Hc & Hq & Hpos) | (i & a & count & Hi & Hc & Hq & Hpos)].
        + exists 0%nat, asset, count. by rewrite Nat.add_0_r.
        + exists (S i), a, count. simpl. by rewrite Nat.add_succ_r. }
    destruct (size_getInfo ee calls (ee_FeatureCollection ee asset))
      as [count|e] eqn:Hq.
    + destruct (0 <? count) eqn:Hpos.
      * apply Z.ltb_lt in Hpos. rewrite elem_of_cons. split.
        -- intros [-> | Hin]; [left; by exists count | by right].
        -- intros [(count' & -> & _) | Hin]; [by left | by right].
      * apply Z.ltb_ge in Hpos. split; [by right|].
        intros [(count' & -> & Hq' & Hpos') | Hin]; [|done].
        rewrite Hq in Hq'. injection Hq' as <-. lia.
    + split; [by right|].
      intros [(count' & -> & Hq' & _) | Hin]; [|done].
      rewrite Hq in Hq'. discriminate.
Qed.

Section WithSizes.
(** The number of features of a collection.  The backend answers a
    size query with that number or not at all, and merging two
    collections of disjoint acquisitions keeps every feature of
    both. *)
Variable size : Collection ee → Z.
Hypothesis size_query_sound : ∀ calls c count,
  size_getInfo ee calls c = Ok count → count = size c.
Hypothesis size_merge : ∀ a b, size (ee_merge ee a b) = size a + size b.

Lemma size_foldl_merge others : ∀ first,
  size (foldl (ee_merge ee) first others)
  = size first + foldr Z.add 0 (size <$> others).
Proof using size_merge.
  induction others as [|c rest IH]; intros first; csimpl; [lia|].
  rewrite IH, size_merge. lia.
Qed.

(** C7, as the code has it.  The loader accepts exactly the assets
    whose size query answers a positive count; an empty asset and an
    asset whose query raises are left out.  With no accepted asset it
    returns [None].  With at least one, it merges the accepted
    collections in order and asks for the size of the merge: if that
    query answers, the merge is returned and its size is the sum of
    the sizes of the accepted collections, which is also the count
    the query answers; if that query raises, [None] is returned. *)
Theorem loader_accepts_nonempty_assets assets :
  (∀ c, c ∈ accepted ee assets ↔
        ∃ (i : nat) asset count,
          assets !! i = Some asset ∧ c = ee_FeatureCollection ee asset ∧
          size_getInfo ee i c = Ok count ∧ 0 < count)
  ∧ (accepted ee assets = [] →
       fst (load_storage_polygons ee assets) = None)
  ∧ (∀ total,
       accepted ee assets ≠ [] →
       merged_size_answer ee assets = Ok total →
       ∃ merged,
         fst (load_storage_polygons ee assets) = Some merged
         ∧ size merged = foldr Z.add 0 (size <$> accepted ee assets)
         ∧ total = size merged)
  ∧ (∀ e,
       accepted ee assets ≠ [] →
       merged_size_answer ee assets = Raise e →
       fst (load_storage_polygons ee assets) = None).
Proof using size_query_sound size_merge.
  split; [intros c; apply (elem_of_accepted_from assets 0%nat)|].
  rewrite load_storage_polygons_unfold. unfold merged_size_answer.
  destruct (accepted ee assets) as [|first others]; [by repeat split|].
  split; [done|]. split.
  - intros total _ Hanswer. rewrite Hanswer. simpl.
    eexists. split; [done|].
    split; [apply size_foldl_merge|].
    by apply size_query_sound in Hanswer.
  - intros e _ Hanswer. by rewrite Hanswer.
Qed.

End WithSizes.

End AssetLoaderProperties.

(** C7, as the specification states it, fails: the assets "a" and "b" are both
    accepted, yet the loader returns [None] because the size query on
    their merge raises. *)
Lemma loader_accepted_but_failed :
  Weekly.accepted (Weekly.list_backend true) ["a"; "b"]%string
  = [Some [1; 2]; Some [3]]
  ∧ fst (Weekly.load_storage_polygons (Weekly.list_backend true) ["a"; "b"]%string)
    = None.
Proof. split; vm_compute; reflexivity. Qed.

(* ===================================================================== *)
(** * Properties of the region fetcher *)
(* ===================================================================== *)

Section FetcherProperties.
Import Fetcher.
Context `{Shapely}.
Implicit Types (servers : list string) (network : Network)
               (attempts : list Z) (trace : list event).

Lemma pick_server_nonempty servers attempt :
  servers ≠ [] →
  pick_server servers attempt
  = Ok (default ""%string
          (servers !! Z.to_nat (attempt mod Z.of_nat (length servers))))
  ∧ is_Some (servers !! Z.to_nat (attempt mod Z.of_nat (length servers))).
Proof.
  intros Hne. unfold pick_server. rewrite decide_False by done.
  assert (0 < Z.of_nat (length servers)) as Hlen.
  { destruct servers; [done | simpl; lia]. }
  pose proof (Z.mod_pos_bound attempt _ Hlen) as Hbound.
  destruct (lookup_lt_is_Some_2 servers
              (Z.to_nat (attempt mod Z.of_nat (length servers)))) as [s Hs];
    [lia|].
  rewrite Hs. split; [done | by exists s].
Qed.

Lemma fetch_loop_trace servers network location_name bbox max_retries attempts :
  ∃ (made : nat) (after : list event),
    (made <= length attempts)%nat
    ∧ snd (fetch_loop servers network location_name bbox max_retries attempts)
      = concat (attempt_effects servers bbox <$> take made attempts) ++ after
    ∧ (after = [] ∨ after = [EvSleep 2])
    ∧ (servers = [] → made = 0%nat).
Proof.
  induction attempts as [|attempt rest IH].
  { exists 0%nat, []. simpl. auto with lia. }
  destruct (decide (servers = [])) as [Hempty|Hne].
  { exists 0%nat, []. cbn [fetch_loop]. unfold pick_server.
    rewrite decide_True by done. simpl. auto with lia. }
  destruct (pick_server_nonempty servers attempt Hne) as [Hpick _].
  cbn [fetch_loop]. rewrite Hpick.
  change (backoff attempt ++ [EvPost _ (build_query bbox)])
    with (attempt_effects servers bbox attempt).
  destruct (fetch_loop servers network location_name bbox max_retries rest)
    as [outcome later] eqn:Hrest.
  destruct IH as (made & after & Hmade & Htrace & Hafter & _).
  cbn [snd] in Htrace.
  assert (∃ made' after',
            (made' <= length (attempt :: rest))%nat
            ∧ (if attempt =? max_retries - 1
               then attempt_effects servers bbox attempt
               else attempt_effects servers bbox attempt ++ later)
              = concat (attempt_effects servers bbox
                          <$> take made' (attempt :: rest)) ++ after'
            ∧ (after' = [] ∨ after' = [EvSleep 2])
            ∧ (servers = [] → made' = 0%nat)) as Hfail.
  { destruct (attempt =? max_retries - 1).
    - exists 1%nat, []. csimpl. rewrite ?take_0. csimpl.
      rewrite ?app_nil_r.
      split; [lia|]. split; [done|]. split; [by left | by intros ?].
    - exists (S made), after. csimpl. rewrite Htrace, app_assoc.
      split; [lia|]. split; [done|]. split; [done | by intros ?]. }
  destruct (network attempt _ (build_query bbox) ≫= assemble location_name)
    as [features|e].
  - exists 1%nat, [EvSleep 2]. cbn [snd]. csimpl. rewrite ?take_0. csimpl.
    rewrite ?app_nil_r. split; [lia|]. split; [done|].
    split; [by right | by intros ?].
  - destruct Hfail as (made' & after' & ? & Heq & ? & ?).
    exists made', after'.
    split; [done|]. split; [|done].
    rewrite <- Heq.
    destruct e; destruct (attempt =? max_retries - 1); reflexivity.
Qed.

Lemma posts_attempt_effects servers bbox attempt :
  posts (attempt_effects servers bbox attempt)
  = [default ""%string
       (servers !! Z.to_nat (attempt mod Z.of_nat (length servers)))].
Proof.
  unfold attempt_effects, backoff, posts.
  destruct (0 <? attempt); reflexivity.
Qed.

Lemma posts_concat_effects servers bbox attempts :
  posts (concat (attempt_effects servers bbox <$> attempts))
  = (λ attempt,
       default ""%string
         (servers !! Z.to_nat (attempt mod Z.of_nat (length servers))))
    <$> attempts.
Proof.
  induction attempts as [|attempt rest IH]; [done|].
  csimpl. unfold posts in *. rewrite omap_app.
  fold (posts (attempt_effects servers bbox attempt)).
  rewrite posts_attempt_effects, IH. reflexivity.
Qed.

Lemma take_range (made : nat) (n : Z) :
  Z.of_nat made ≤ n → take made (range n) = range (Z.of_nat made).
Proof.
  intros Hle. unfold range.
  replace n with (Z.of_nat made + (n - Z.of_nat made)) by lia.
  rewrite seqZ_app by lia.
  rewrite take_app_length'; [done|].
  rewrite length_seqZ. lia.
Qed.

(** C5.  A call of the fetch operation with a mirror list and a number
    [max_retries] of attempts makes [made] attempts with
    [made <= max_retries].  Its effects are, for the attempts
    [0 .. made-1] in order, a sleep of [5 * i] seconds when [i > 0] (no
    sleep when [i = 0]) followed by one post to
    [servers[i mod len(servers)]], and after them at most the two-second
    pause that follows a successful post.  Hence the [i]-th post goes to
    [servers[i mod len(servers)]]. *)
Theorem fetch_attempts_round_robin servers network location_name bbox
    max_retries :
  0 ≤ max_retries →
  let trace :=
    snd (fetch_tanks_on servers network location_name bbox max_retries) in
  ∃ (made : nat) (after : list event),
    Z.of_nat made ≤ max_retries
    ∧ trace
      = concat (attempt_effects servers bbox <$> range (Z.of_nat made))
        ++ after
    ∧ (after = [] ∨ after = [EvSleep 2])
    ∧ length (posts trace) = made
    ∧ (∀ (i : nat) server,
         posts trace !! i = Some server →
         servers !! (i mod length servers)%nat = Some server)
    ∧ backoff 0 = []
    ∧ (∀ attempt, 0 < attempt → backoff attempt = [EvSleep (5 * attempt)]).
Proof.
  intros Hmax trace. subst trace. unfold fetch_tanks_on.
  destruct (fetch_loop_trace servers network location_name bbox max_retries
              (range max_retries))
    as (made & after & Hmade & Htrace & Hafter & Hempty).
  unfold range in Hmade. rewrite length_seqZ in Hmade.
  rewrite take_range in Htrace by lia.
  exists made, after.
  assert (posts (snd (fetch_loop servers network location_name bbox
                        max_retries (range max_retries)))
          = (λ attempt,
               default ""%string
                 (servers !! Z.to_nat (attempt mod Z.of_nat (length servers))))
            <$> range (Z.of_nat made)) as Hposts.
  { rewrite Htrace. unfold posts. rewrite omap_app.
    fold (posts (concat (attempt_effects servers bbox <$> range (Z.of_nat made)))).
    rewrite posts_concat_effects.
    destruct Hafter as [-> | ->]; simpl; by rewrite app_nil_r. }
  split; [lia|]. split; [done|]. split; [done|].
  split.
  { rewrite Hposts, length_fmap. unfold range. rewrite length_seqZ. lia. }
  split.
  { intros i server. rewrite Hposts, list_lookup_fmap.
    unfold range.
    destruct (seqZ 0 (Z.of_nat made) !! i) as [attempt|] eqn:Hi; [|done].
    apply lookup_seqZ in Hi as [-> Hi]. simpl. intros [= <-].
    assert (servers ≠ []) as Hne.
    { intros Heq. specialize (Hempty Heq). lia. }
    destruct (pick_server_nonempty servers (0 + Z.of_nat i) Hne)
      as [_ [s Hs]].
    rewrite Hs. simpl. rewrite <- Hs. f_equal.
    rewrite Z.add_0_l, <- Nat2Z.inj_mod, Nat2Z.id. reflexivity. }
  split; [reflexivity|].
  intros attempt Hpos. unfold backoff.
  by destruct (Z.ltb_spec 0 attempt); [|lia].
Qed.

Lemma range_last_only max_retries (m n : Z) :
  m + n = max_retries →
  ∀ pre attempt post,
    seqZ m n = pre ++ attempt :: post → attempt = max_retries - 1 → post = [].
Proof.
  intros Hsum pre attempt post Heq Hlast.
  destruct post as [|next post]; [done|].
  assert (seqZ m n !! length pre = Some attempt) as H1.
  { rewrite Heq. by rewrite list_lookup_middle. }
  assert (seqZ m n !! S (length pre) = Some next) as H2.
  { rewrite Heq, lookup_app_r by lia.
    by replace (S (length pre) - length pre)%nat with 1%nat by lia. }
  apply lookup_seqZ in H1 as [H1 _]. apply lookup_seqZ in H2 as [_ H2]. lia.
Qed.

Lemma fetch_loop_all_fail servers network location_name bbox max_retries :
  servers ≠ [] →
  (∀ attempt server query, ∃ e, network attempt server query = Raise e) →
  ∀ attempts,
    (∀ pre attempt post,
       attempts = pre ++ attempt :: post → attempt = max_retries - 1 →
       post = []) →
    fetch_loop servers network location_name bbox max_retries attempts
    = (Ok [], concat (attempt_effects servers bbox <$> attempts)).
Proof.
  intros Hne Hdown attempts. induction attempts as [|attempt rest IH];
    intros Hlast; [done|].
  destruct (pick_server_nonempty servers attempt Hne) as [Hpick _].
  cbn [fetch_loop]. rewrite Hpick.
  change (backoff attempt ++ [EvPost _ (build_query bbox)])
    with (attempt_effects servers bbox attempt).
  destruct (Hdown attempt
              (default ""%string
                 (servers !! Z.to_nat (attempt `mod` Z.of_nat (length servers))))
              (build_query bbox)) as [e ->].
  rewrite IH by (intros pre a post ->; apply (Hlast (attempt :: pre) a post); done).
  assert ((if attempt =? max_retries - 1
           then (Ok ([] : list (Feature Geom)), attempt_effects servers bbox attempt)
           else (Ok [], attempt_effects servers bbox attempt
                        ++ concat (attempt_effects servers bbox <$> rest)))
          = (Ok [], concat (attempt_effects servers bbox <$> attempt :: rest)))
    as Hgoal.
  { destruct (Z.eqb_spec attempt (max_retries - 1)) as [Heq|]; [|done].
    rewrite (Hlast [] attempt rest eq_refl Heq). csimpl.
    by rewrite app_nil_r. }
  csimpl. csimpl in Hgoal. destruct e; exact Hgoal.
Qed.

(** C6.  When every attempt fails with a timeout, a transport failure or
    a malformed body, the fetch operation makes all [max_retries]
    attempts, each with the same effects whatever the class of its
    failure, and returns the empty list; it does not raise. *)
Theorem fetch_exhausts_then_returns_empty servers network location_name
    bbox max_retries :
  servers ≠ [] →
  (∀ attempt server query,
     ∃ e, network attempt server query = Raise e ∧ transient e) →
  fetch_tanks_on servers network location_name bbox max_retries
  = (Ok [], concat (attempt_effects servers bbox <$> range max_retries))
  ∧ length (posts (snd (fetch_tanks_on servers network location_name bbox
                          max_retries)))
    = Z.to_nat max_retries.
Proof.
  intros Hne Hfail.
  assert (fetch_tanks_on servers network location_name bbox max_retries
          = (Ok [], concat (attempt_effects servers bbox <$> range max_retries)))
    as Hrun.
  { unfold fetch_tanks_on. apply fetch_loop_all_fail; [done| |].
    - intros attempt server query.
      destruct (Hfail attempt server query) as (e & He & _). by exists e.
    - unfold range. destruct (Z_le_gt_dec max_retries 0).
      + rewrite seqZ_nil by lia. by intros [|??] ???.
      + apply range_last_only. lia. }
  split; [done|].
  rewrite Hrun. cbn [snd].
  rewrite posts_concat_effects, length_fmap. unfold range.
  by rewrite length_seqZ.
Qed.

Lemma fetch_loop_empty_outcome servers network location_name bbox max_retries :
  servers ≠ [] →
  ∀ attempts,
    (∀ attempt server query features,
       attempt ∈ attempts →
       network attempt server query ≫= assemble location_name = Ok features →
       features = []) →
    fst (fetch_loop servers network location_name bbox max_retries attempts)
    = Ok [].
Proof.
  intros Hne attempts. induction attempts as [|attempt rest IH];
    intros Hempty; [done|].
  destruct (pick_server_nonempty servers attempt Hne) as [Hpick _].
  cbn [fetch_loop]. rewrite Hpick.
  specialize (Hempty attempt
    (default ""%string
       (servers !! Z.to_nat (attempt `mod` Z.of_nat (length servers))))
    (build_query bbox)) as Hhere.
  destruct (fetch_loop servers network location_name bbox max_retries rest)
    as [outcome later] eqn:Hrest.
  assert (outcome = Ok []) as ->.
  { change outcome with (fst (outcome, later)). apply IH.
    intros a s q fs Ha. apply Hempty. by right. }
  destruct (network attempt _ (build_query bbox) ≫= assemble location_name)
    as [features|e].
  - cbn [fst]. f_equal. apply Hhere; [by left | done].
  - destruct e; destruct (attempt =? max_retries - 1); reflexivity.
Qed.

Lemma fetch_loop_first_success servers network location_name bbox
    max_retries (k : Z) (features : list (Feature Geom)) post :
  servers ≠ [] →
  (∀ server query,
     network k server query ≫= assemble location_name = Ok features) →
  ∀ pre,
    (∀ attempt, attempt ∈ pre →
       attempt ≠ max_retries - 1
       ∧ ∀ server query, ∃ e, network attempt server query = Raise e) →
    fetch_loop servers network location_name bbox max_retries
               (pre ++ k :: post)
    = (Ok features,
       concat (attempt_effects servers bbox <$> pre ++ [k]) ++ [EvSleep 2]).
Proof.
  intros Hne Hat pre. induction pre as [|attempt rest IH]; intros Hpre.
  - destruct (pick_server_nonempty servers k Hne) as [Hpick _].
    cbn [app fetch_loop]. rewrite Hpick, Hat. csimpl.
    by rewrite app_nil_r.
  - destruct (pick_server_nonempty servers attempt Hne) as [Hpick _].
    destruct (Hpre attempt) as [Hnotlast Hdown]; [by left|].
    cbn [app fetch_loop]. rewrite Hpick.
    change (backoff attempt ++ [EvPost _ (build_query bbox)])
      with (attempt_effects servers bbox attempt).
    destruct (Hdown
                (default ""%string
                   (servers !! Z.to_nat (attempt `mod` Z.of_nat (length servers))))
                (build_query bbox)) as [e ->].
    rewrite IH by (intros a Ha; apply Hpre; by right).
    destruct (Z.eqb_spec attempt (max_retries - 1)) as [|_]; [done|].
    csimpl. rewrite <- app_assoc. destruct e; reflexivity.
Qed.

(** C10.  The fetch operation returns the empty list when every attempt
    fails, and it returns the same empty list when, after [k] failed
    attempts, attempt [k] succeeds with a body that yields no valid
    tank polygon (the run then ends with the pause that follows a
    success): the two returned values are equal. *)
Theorem fetch_empty_is_ambiguous servers (down region : Network)
    location_name bbox max_retries (k : Z) (data : Response) :
  servers ≠ [] →
  (∀ attempt server query, ∃ e, down attempt server query = Raise e) →
  0 ≤ k < max_retries →
  (∀ attempt server query,
     attempt < k → ∃ e, region attempt server query = Raise e) →
  (∀ server query, region k server query = Ok data) →
  assemble location_name data = Ok [] →
  fst (fetch_tanks_on servers down location_name bbox max_retries) = Ok []
  ∧ fetch_tanks_on servers region location_name bbox max_retries
    = (Ok [],
       concat (attempt_effects servers bbox <$> range (k + 1)) ++ [EvSleep 2])
  ∧ fst (fetch_tanks_on servers down location_name bbox max_retries)
    = fst (fetch_tanks_on servers region location_name bbox max_retries).
Proof.
  intros Hne Hdown Hk Hbefore Hat Hnone.
  assert (fst (fetch_tanks_on servers down location_name bbox max_retries)
          = Ok []) as H1.
  { apply fetch_loop_empty_outcome; [done|].
    intros attempt server query features _.
    by destruct (Hdown attempt server query) as [e ->]. }
  assert (fetch_tanks_on servers region location_name bbox max_retries
          = (Ok [],
             concat (attempt_effects servers bbox <$> range (k + 1))
             ++ [EvSleep 2])) as H2.
  { unfold fetch_tanks_on, range.
    replace max_retries with (k + (max_retries - k)) at 2 by lia.
    rewrite seqZ_app by lia.
    rewrite (seqZ_cons (0 + k)) by lia.
    rewrite (seqZ_app 0 k 1) by lia.
    change (seqZ (0 + k) 1) with [0 + k]. rewrite Z.add_0_l.
    apply fetch_loop_first_success; [done| |].
    - intros server query. rewrite Hat. csimpl. exact Hnone.
    - intros attempt [_ Hin]%elem_of_seqZ. split; [lia|].
      intros server query. apply Hbefore. lia. }
  rewrite H1, H2. done.
Qed.

End FetcherProperties.

Section ValidationProperties.
Import Fetcher.
Context `{ShapelyContract}.
Implicit Types (coords ring : list Coord).

Lemma close_ring_cases coords :
  close_ring coords = coords
  ∨ ∃ first, head coords = Some first ∧ close_ring coords = coords ++ [first].
Proof.
  unfold close_ring.
  destruct (head coords) as [first|]; [|by left].
  destruct (last coords) as [final|]; [|by left].
  case_decide; [right; by exists first | by left].
Qed.

Lemma close_ring_distinct coords :
  distinct_points (close_ring coords) = distinct_points coords.
Proof.
  destruct (close_ring_cases coords) as [-> | (first & Hhead & ->)]; [done|].
  unfold distinct_points. apply Permutation_length, NoDup_Permutation.
  - apply NoDup_remove_dups.
  - apply NoDup_remove_dups.
  - intros c. rewrite !elem_of_remove_dups, elem_of_app, list_elem_of_singleton.
    split; [|by left]. intros [Hin | ->]; [done|].
    destruct coords; [done|]. injection Hhead as ->. by left.
Qed.

Lemma validate_Some location_name id tags coords feature :
  validate location_name id tags coords = Ok (Some feature) ↔
  (3 <= length coords)%nat ∧
  ∃ poly geometry,
    Polygon (close_ring coords) = Ok poly ∧ is_valid poly = Ok true ∧
    area_positive poly = Ok true ∧ mapping poly = Ok geometry ∧
    feature = mkFeature geometry (way_properties location_name id tags).
Proof.
  unfold validate, make_feature, try_except.
  destruct (Z.ltb_spec (Z.of_nat (length coords)) 3) as [Hshort|Hlong].
  { split; [done | intros [? _]; lia]. }
  destruct (Polygon (close_ring coords)) as [poly|e]; csimpl.
  2: { split; [done | by intros (_ & ? & ? & ? & _)]. }
  destruct (is_valid poly) as [[|]|e] eqn:Hvalid; csimpl.
  2,3: split; [done | intros (_ & ? & ? & [= <-] & ? & _); congruence].
  destruct (area_positive poly) as [[|]|e] eqn:Harea; csimpl.
  2,3: split; [done | intros (_ & ? & ? & [= <-] & _ & ? & _); congruence].
  destruct (mapping poly) as [geometry|e] eqn:Hmap; csimpl.
  2: split; [done | intros (_ & ? & ? & [= <-] & _ & _ & ? & _); congruence].
  split.
  - intros [= <-]. split; [lia|]. by exists poly, geometry.
  - intros (_ & ? & ? & [= <-] & _ & _ & Hg & ->). congruence.
Qed.

Lemma validate_silent location_name id tags coords :
  ∃ outcome, validate location_name id tags coords = Ok outcome.
Proof.
  unfold validate, try_except.
  destruct (Z.of_nat (length coords) <? 3); [by eexists|].
  destruct (make_feature location_name id tags (close_ring coords));
    by eexists.
Qed.

Lemma validate_rejects location_name id tags coords :
  (∀ poly, Polygon (close_ring coords) = Ok poly →
           is_valid poly = Ok true → area_positive poly = Ok true → False) →
  validate location_name id tags coords = Ok None.
Proof.
  intros Hno.
  destruct (validate_silent location_name id tags coords) as [[feature|] Hrun];
    [|done].
  apply validate_Some in Hrun as (_ & poly & g & Hp & Hv & Ha & _).
  destruct (Hno poly Hp Hv Ha).
Qed.

Lemma for_each_process_element nodes location_name elements :
  ∀ features,
    ∃ features',
      for_each (process_element nodes location_name) elements features
      = Ok features'.
Proof.
  induction elements as [|el rest IH]; intros features; simpl; [by eexists|].
  assert (∃ features', process_element nodes location_name features el
                       = Ok features') as [features' ->]; [|apply IH].
  destruct el as [| id [node_ids|] tags |]; simpl; try by eexists.
  destruct (validate_silent location_name id tags (resolve nodes node_ids))
    as [[feature|] ->]; csimpl; by eexists.
Qed.

(** C4.  The validation of a candidate ring never raises: it yields a
    feature or nothing, so that assembling the features of a response body
    never raises either.  It yields a feature exactly when the ring has at
    least three coordinates and shapely builds the closed ring into a
    polygon, reports it valid, reports a positive area and maps it.
    Hence, under the contract of shapely, a ring with fewer than three
    distinct points, a ring that intersects itself once closed and a
    ring of zero area once closed yield nothing, and a ring that is,
    once closed, a simple closed quadrilateral yields a feature carrying
    the way's properties. *)
Theorem validate_rejects_silently location_name id tags coords :
  (∃ outcome, validate location_name id tags coords = Ok outcome)
  ∧ (∀ data, ∃ features, assemble location_name data = Ok features)
  ∧ (∀ feature,
       validate location_name id tags coords = Ok (Some feature) ↔
       (3 <= length coords)%nat ∧
       ∃ poly geometry,
         Polygon (close_ring coords) = Ok poly ∧ is_valid poly = Ok true ∧
         area_positive poly = Ok true ∧ mapping poly = Ok geometry ∧
         feature = mkFeature geometry (way_properties location_name id tags))
  ∧ ((distinct_points coords < 3)%nat →
       validate location_name id tags coords = Ok None)
  ∧ (self_intersecting (close_ring coords) →
       validate location_name id tags coords = Ok None)
  ∧ (zero_area (close_ring coords) →
       validate location_name id tags coords = Ok None)
  ∧ (simple_closed_quadrilateral (close_ring coords) →
       ∃ geometry,
         validate location_name id tags coords
         = Ok (Some (mkFeature geometry
                       (way_properties location_name id tags)))).
Proof.
  split; [apply validate_silent|].
  split; [intros data; apply for_each_process_element|].
  split; [intros feature; apply validate_Some|].
  split.
  { intros Hfew. apply validate_rejects. intros poly Hp Hv Ha.
    pose proof (accepted_has_three_points _ _ Hp Hv Ha) as Hthree.
    rewrite close_ring_distinct in Hthree. lia. }
  split.
  { intros Hself. apply validate_rejects. intros poly Hp Hv _.
    by apply (valid_is_simple _ _ Hp Hv). }
  split.
  { intros Hflat. apply validate_rejects. intros poly Hp _ Ha.
    by apply (positive_is_not_flat _ _ Hp Ha). }
  intros Hquad.
  destruct (quadrilateral_is_closed _ Hquad) as [Hlen _].
  destruct (quadrilateral_is_accepted _ Hquad) as (poly & g & Hp & Hv & Ha & Hg).
  exists g. apply validate_Some. split; [|by exists poly, g].
  destruct (close_ring_cases coords) as [Heq | (first & _ & Heq)];
    rewrite Heq in Hlen; [lia|].
  rewrite length_app in Hlen. simpl in Hlen. lia.
Qed.

End ValidationProperties.

(* ===================================================================== *)
(** * The properties at concrete inputs *)
(* ===================================================================== *)

Lemma grid_build ring poly : Grid.build ring = Ok poly → poly = ring.
Proof. unfold Grid.build. destruct (length ring <? 4)%nat; congruence. Qed.

(** The grid geometry honours the contract. *)
Lemma grid_contract : @Fetcher.ShapelyContract Grid.grid_shapely Grid.grid_geometry.
Proof.
  split.
  - intros ring poly Hp%grid_build Hv. subst poly.
    injection Hv as Hv. apply andb_true_iff in Hv as [Hv _].
    apply negb_true_iff in Hv.
    intros Hself. change (Grid.self_intersects ring = true) in Hself.
    congruence.
  - intros ring poly Hp%grid_build Ha. subst poly.
    injection Ha as Ha. apply negb_true_iff, Z.eqb_neq in Ha. exact Ha.
  - intros ring poly Hp%grid_build Hv _. subst poly.
    injection Hv as Hv. apply andb_true_iff in Hv as [_ Hv].
    change (3 <= Grid.distinct ring)%nat.
    destruct (Grid.distinct ring) as [|[|[|n]]]; [done..|lia].
  - intros ring (Hlen & Hclosed & _). done.
  - intros ring (Hlen & _ & Hsimple & Harea & Hdistinct).
    exists ring, ring.
    change (Grid.build ring = Ok ring ∧ Grid.valid ring = Ok true
            ∧ Grid.positive ring = Ok true ∧ Ok ring = Ok ring).
    unfold Grid.build, Grid.valid, Grid.positive.
    rewrite Hlen, Hsimple, Hdistinct.
    repeat split. f_equal. apply negb_true_iff, Z.eqb_neq. done.
Qed.

(** Two tanks with the ids 1 and 2, merged with themselves. *)
Lemma merger_idempotent_witness :
  let S : list (Feature string) :=
    [ mkFeature "square"%string {["tank_id"%string := PyInt 1]};
      mkFeature "circle"%string {["tank_id"%string := PyInt 2]} ] in
  Merger.unique_ids S
  ∧ Merger.merged (Merger.merge_tanker_jsons S S) = S
  ∧ Merger.unique_count (Merger.merge_tanker_jsons S S) = 2.
Proof.
  intros S.
  assert (Merger.unique_ids S) as Hunique.
  { apply (bool_decide_unpack _). vm_compute. exact I. }
  split; [exact Hunique|]. exact (merger_idempotent S Hunique).
Defined.

(** Four features of which three have no identifier: one of the three
    survives. *)
Lemma merger_collapses_idless_witness :
  let fs : list (Feature string) :=
    [ mkFeature "square"%string {["location"%string := PyStr "Cushing, OK"]};
      mkFeature "circle"%string {["tank_id"%string := PyInt 5]};
      mkFeature "hexagon"%string ∅;
      mkFeature "octagon"%string {["tank_id"%string := PyNone]} ] in
  (2 <= length (filter Merger.idless fs))%nat
  ∧ length (filter Merger.idless (Merger.unique_features fs)) = 1%nat.
Proof.
  intros fs.
  assert (2 <= length (filter Merger.idless fs))%nat as Htwo.
  { vm_compute. lia. }
  split; [exact Htwo|].
  exact (proj2 (proj2 (proj2 (merger_collapses_idless fs))) Htwo).
Defined.

(** 2024-01-04 is a Thursday: the script stops at the check. *)
Lemma script_checks_weekday_first_witness :
  Calendar.weekday (Calendar.mkDate 2024 1 4) ≠ Weekly.EIA_RELEASE_WEEKDAY
  ∧ Weekly.script (Weekly.list_backend false) 10 Weekly.REGION_ASSETS
      (Calendar.mkDate 2024 1 4) Weekly.END_DATE Weekly.COMPOSITE_INTERVAL_DAYS
    = Some (Raise ValueError, []).
Proof.
  assert (Calendar.weekday (Calendar.mkDate 2024 1 4)
          ≠ Weekly.EIA_RELEASE_WEEKDAY) as Hthursday.
  { vm_compute. discriminate. }
  split; [exact Hthursday|].
  exact (proj1 (script_checks_weekday_first (Weekly.list_backend false) 10
                  Weekly.REGION_ASSETS (Calendar.mkDate 2024 1 4)
                  Weekly.END_DATE Weekly.COMPOSITE_INTERVAL_DAYS) Hthursday).
Defined.

Lemma list_backend_sound : ∀ (calls : nat) c count,
  Weekly.size_getInfo (Weekly.list_backend false) calls c = Ok count →
  count = Weekly.list_size c.
Proof. intros calls [tanks|] count; simpl; [|done]. by intros [= <-]. Qed.

Lemma list_backend_merge : ∀ a b,
  Weekly.list_size (Weekly.ee_merge (Weekly.list_backend false) a b)
  = Weekly.list_size a + Weekly.list_size b.
Proof.
  intros a b. unfold Weekly.list_size. simpl. rewrite length_app. lia.
Qed.

(** Of the assets "a", "empty", "missing" and "b" the loader accepts "a"
    and "b" and returns their three tanks. *)
Lemma loader_accepts_nonempty_assets_witness :
  let assets := ["a"; "empty"; "missing"; "b"]%string in
  Weekly.accepted (Weekly.list_backend false) assets ≠ []
  ∧ Weekly.merged_size_answer (Weekly.list_backend false) assets = Ok 3
  ∧ ∃ merged,
      fst (Weekly.load_storage_polygons (Weekly.list_backend false) assets)
      = Some merged
      ∧ Weekly.list_size merged = 3.
Proof.
  intros assets.
  assert (Weekly.accepted (Weekly.list_backend false) assets ≠ []) as Hsome.
  { vm_compute. discriminate. }
  assert (Weekly.merged_size_answer (Weekly.list_backend false) assets = Ok 3)
    as Hanswer.
  { vm_compute. reflexivity. }
  split; [exact Hsome|]. split; [exact Hanswer|].
  destruct (proj1 (proj2 (proj2
              (loader_accepts_nonempty_assets (Weekly.list_backend false)
                 Weekly.list_size list_backend_sound list_backend_merge assets)))
              3 Hsome Hanswer) as (merged & Hload & _ & Htotal).
  exists merged. split; [exact Hload | by symmetry].
Defined.

(** A fetch of Cushing with three attempts allowed, the first of which
    fails. *)
Lemma fetch_attempts_round_robin_witness :
  0 ≤ 3
  ∧ (length (Fetcher.posts
               (snd (Fetcher.fetch_tanks_on (H:=Grid.grid_shapely)
                       Fetcher.OVERPASS_SERVERS
                       (Grid.second_try (Grid.body_of Grid.unit_square))
                       "Cushing, OK" "35.95,-97.45,36.15,-96.95" 3)))
     <= 3)%nat.
Proof.
  assert (0 ≤ 3) as Hmax by lia.
  split; [exact Hmax|].
  destruct (fetch_attempts_round_robin (H:=Grid.grid_shapely)
              Fetcher.OVERPASS_SERVERS
              (Grid.second_try (Grid.body_of Grid.unit_square))
              "Cushing, OK" "35.95,-97.45,36.15,-96.95" 3 Hmax)
    as (made & after & Hle & _ & _ & Hlen & _).
  rewrite Hlen. lia.
Defined.

(** A fetch of Cushing on a network on which every post times out. *)
Lemma fetch_exhausts_then_returns_empty_witness :
  Fetcher.OVERPASS_SERVERS ≠ []
  ∧ fst (Fetcher.fetch_tanks (H:=Grid.grid_shapely) Grid.always_down
           "Cushing, OK" "35.95,-97.45,36.15,-96.95" 3) = Ok []
  ∧ length (Fetcher.posts
              (snd (Fetcher.fetch_tanks (H:=Grid.grid_shapely) Grid.always_down
                      "Cushing, OK" "35.95,-97.45,36.15,-96.95" 3))) = 3%nat.
Proof.
  assert (Fetcher.OVERPASS_SERVERS ≠ []) as Hservers by discriminate.
  assert (∀ attempt server query,
            ∃ e, Grid.always_down attempt server query = Raise e
                 ∧ Fetcher.transient e) as Hdown.
  { intros attempt server query. exists RequestTimeout.
    split; [reflexivity | left; reflexivity]. }
  split; [exact Hservers|].
  destruct (fetch_exhausts_then_returns_empty (H:=Grid.grid_shapely)
              Fetcher.OVERPASS_SERVERS Grid.always_down
              "Cushing, OK" "35.95,-97.45,36.15,-96.95" 3 Hservers Hdown)
    as [Hrun Hposts].
  unfold Fetcher.fetch_tanks. split; [by rewrite Hrun | exact Hposts].
Defined.

(** A network that is down and a network that answers, on the second
    attempt, a body whose only way is a bow tie. *)
Lemma fetch_empty_is_ambiguous_witness :
  Fetcher.assemble (H:=Grid.grid_shapely) "Cushing, OK"
    (Grid.body_of Grid.bow_tie) = Ok []
  ∧ fst (Fetcher.fetch_tanks (H:=Grid.grid_shapely) Grid.always_down
           "Cushing, OK" "35.95,-97.45,36.15,-96.95" 3)
    = fst (Fetcher.fetch_tanks (H:=Grid.grid_shapely)
             (Grid.second_try (Grid.body_of Grid.bow_tie))
             "Cushing, OK" "35.95,-97.45,36.15,-96.95" 3).
Proof.
  assert (Fetcher.assemble (H:=Grid.grid_shapely) "Cushing, OK"
            (Grid.body_of Grid.bow_tie) = Ok []) as Hnone.
  { vm_compute. reflexivity. }
  split; [exact Hnone|].
  refine (proj2 (proj2
    (fetch_empty_is_ambiguous (H:=Grid.grid_shapely)
       Fetcher.OVERPASS_SERVERS Grid.always_down
       (Grid.second_try (Grid.body_of Grid.bow_tie))
       "Cushing, OK" "35.95,-97.45,36.15,-96.95" 3 1
       (Grid.body_of Grid.bow_tie) _ _ _ _ _ Hnone))).
  - discriminate.
  - intros attempt server query. by exists RequestTimeout.
  - lia.
  - intros attempt server query Hbefore. exists JSONDecodeError.
    unfold Grid.second_try.
    by destruct (Z.ltb_spec attempt 1); [|lia].
  - intros server query. reflexivity.
Defined.

(** On the integer grid: a ring of two points, a bow tie and a flat ring
    are rejected, the unit square is accepted. *)
Lemma validate_rejects_silently_witness :
  Fetcher.validate (H:=Grid.grid_shapely) "Cushing, OK" 7 None Grid.two_points
  = Ok None
  ∧ Fetcher.validate (H:=Grid.grid_shapely) "Cushing, OK" 7 None Grid.bow_tie
    = Ok None
  ∧ Fetcher.validate (H:=Grid.grid_shapely) "Cushing, OK" 7 None Grid.flat_ring
    = Ok None
  ∧ ∃ geometry,
      Fetcher.validate (H:=Grid.grid_shapely) "Cushing, OK" 7 None
        Grid.unit_square
      = Ok (Some (mkFeature geometry
                    (Fetcher.way_properties "Cushing, OK" 7 None))).
Proof.
  pose proof (λ coords,
    validate_rejects_silently (H:=Grid.grid_shapely) (H0:=Grid.grid_geometry)
      (H1:=grid_contract) "Cushing, OK" 7 None coords) as Hvalidate.
  split; [|split; [|split]].
  - apply (Hvalidate Grid.two_points). vm_compute. lia.
  - apply (Hvalidate Grid.bow_tie). vm_compute. reflexivity.
  - apply (Hvalidate Grid.flat_ring). vm_compute. reflexivity.
  - apply (Hvalidate Grid.unit_square). vm_compute.
    repeat split; discriminate.
Defined.

(* ===================================================================== *)
(** * Further properties of the merger *)
(* ===================================================================== *)

Section MergerInvariants.
Import Merger.
Context {G : Type}.
Implicit Types (fs gs : list (Feature G)) (seen : gset pyval).

Lemma keep_unseen_avoids fs : ∀ seen f,
  f ∈ keep_unseen seen fs → get_tank_id f ∉ seen.
Proof.
  induction fs as [|g rest IH]; intros seen f; simpl; [by intros ?%elem_of_nil|].
  case_decide as Hg.
  - intros [-> | Hin]%elem_of_cons; [done|].
    apply IH in Hin. set_solver.
  - apply IH.
Qed.

Lemma keep_unseen_NoDup fs : ∀ seen,
  NoDup (get_tank_id <$> keep_unseen seen fs).
Proof.
  induction fs as [|g rest IH]; intros seen; simpl; [constructor|].
  case_decide as Hg; [|apply IH].
  rewrite fmap_cons. apply NoDup_cons. split; [|apply IH].
  intros (f & Heq & Hin)%list_elem_of_fmap.
  apply keep_unseen_avoids in Hin. set_solver.
Qed.

Lemma keep_unseen_ids fs : ∀ seen t,
  t ∈ get_tank_id <$> keep_unseen seen fs ↔
  t ∈ get_tank_id <$> fs ∧ t ∉ seen.
Proof.
  induction fs as [|g rest IH]; intros seen t; simpl.
  - split; [by intros ?%elem_of_nil | by intros [?%elem_of_nil _]].
  - case_decide as Hg; csimpl.
    + rewrite !elem_of_cons, IH, not_elem_of_union, not_elem_of_singleton.
      destruct (decide (t = get_tank_id g)); naive_solver.
    + rewrite elem_of_cons, IH.
      destruct (decide (t = get_tank_id g)); naive_solver.
Qed.

Lemma keep_unseen_filter fs : ∀ seen extra,
  keep_unseen (seen ∪ extra) fs
  = keep_unseen extra (filter (λ f, get_tank_id f ∉ seen) fs).
Proof.
  induction fs as [|g rest IH]; intros seen extra; simpl; [done|].
  rewrite filter_cons. destruct (decide (get_tank_id g ∉ seen)) as [Hnew|Hold].
  - simpl. destruct (decide (get_tank_id g ∉ extra)) as [Hfresh|Hstale].
    + rewrite decide_True by set_solver. f_equal.
      rewrite <- IH. f_equal. set_solver.
    + rewrite decide_False by set_solver. apply IH.
  - rewrite decide_False by set_solver. apply IH.
Qed.

Lemma sublist_same_length (l k : list (Feature G)) :
  sublist l k → length l = length k → l = k.
Proof.
  induction 1 as [|x l k Hsub IH|x l k Hsub IH]; simpl; intros Hlen.
  - done.
  - f_equal. apply IH. lia.
  - apply sublist_length in Hsub. lia.
Qed.

(** X1.  The merged collection satisfies the PolygonSet invariant whatever
    the inputs are, and it carries exactly the tank ids of the inputs. *)
Theorem merger_output_ids (data1 data2 : list (Feature G)) :
  unique_ids (merged (merge_tanker_jsons data1 data2))
  ∧ ∀ t, t ∈ get_tank_id <$> merged (merge_tanker_jsons data1 data2)
         ↔ t ∈ get_tank_id <$> data1 ++ data2.
Proof.
  unfold merge_tanker_jsons, unique_ids. cbn [merged].
  rewrite unique_features_keep_unseen. split.
  - apply keep_unseen_NoDup.
  - intros t. rewrite keep_unseen_ids. set_solver.
Qed.

(** X2.  The count of removed duplicates lies between 0 and the number of
    input features, and it is 0 exactly when the tank ids of the
    concatenated inputs are pairwise distinct, which is exactly when the
    merged collection is the plain concatenation. *)
Theorem merger_removes_nothing_iff (data1 data2 : list (Feature G)) :
  let report := merge_tanker_jsons data1 data2 in
  0 ≤ duplicates_removed report ≤ total_count report
  ∧ (duplicates_removed report = 0 ↔ unique_ids (data1 ++ data2))
  ∧ (duplicates_removed report = 0 ↔ merged report = data1 ++ data2).
Proof.
  cbn zeta. unfold merge_tanker_jsons.
  cbn [merged total_count duplicates_removed].
  rewrite unique_features_keep_unseen.
  pose proof (keep_unseen_sublist (data1 ++ data2) ∅) as Hsub.
  pose proof (sublist_length _ _ Hsub) as Hlen.
  assert (Z.of_nat (length (data1 ++ data2))
          - Z.of_nat (length (keep_unseen ∅ (data1 ++ data2))) = 0
          ↔ keep_unseen ∅ (data1 ++ data2) = data1 ++ data2) as Hzero.
  { split.
    - intros Heq. apply sublist_same_length; [done | lia].
    - intros ->. lia. }
  split; [lia|]. split; [|done].
  rewrite Hzero. split.
  - intros Heq. unfold unique_ids. rewrite <- Heq. apply keep_unseen_NoDup.
  - intros Hnd. apply keep_unseen_fresh; [done | set_solver].
Qed.

(** X3.  Merging in two stages gives the same collection as merging the
    three inputs at once: the result of a merge can be merged again with a
    further file. *)
Theorem merger_staged (data1 data2 data3 : list (Feature G)) :
  merged (merge_tanker_jsons (merged (merge_tanker_jsons data1 data2)) data3)
  = unique_features (data1 ++ data2 ++ data3).
Proof.
  unfold merge_tanker_jsons. cbn [merged].
  rewrite !unique_features_keep_unseen.
  rewrite (app_assoc data1 data2 data3).
  rewrite (keep_unseen_app (keep_unseen ∅ (data1 ++ data2)) data3 ∅).
  rewrite (keep_unseen_app (data1 ++ data2) data3 ∅).
  rewrite (keep_unseen_fresh (keep_unseen ∅ (data1 ++ data2)) ∅)
    by (apply keep_unseen_NoDup || set_solver).
  f_equal. f_equal. apply set_eq. intros t.
  rewrite !elem_of_union, !elem_of_list_to_set, keep_unseen_ids.
  set_solver.
Qed.

(** X4.  When the first file has pairwise distinct tank ids, the merged
    collection is the first file as it stands, followed by the
    deduplicated features of the second file whose id the first file does
    not have. *)
Theorem merger_first_file_wins (data1 data2 : list (Feature G)) :
  unique_ids data1 →
  merged (merge_tanker_jsons data1 data2)
  = data1 ++
    unique_features
      (filter (λ f, get_tank_id f ∉ get_tank_id <$> data1) data2).
Proof.
  intros Hnd. unfold merge_tanker_jsons. cbn [merged].
  rewrite !unique_features_keep_unseen, keep_unseen_app.
  rewrite keep_unseen_fresh by (done || set_solver). f_equal.
  rewrite (union_comm_L ∅), keep_unseen_filter.
  f_equal. apply list_filter_iff. intros f.
  by rewrite elem_of_list_to_set.
Qed.

End MergerInvariants.

(** Two surveys of the same tank 2: the first file is kept whole. *)
Lemma merger_first_file_wins_witness :
  let data1 : list (Feature string) :=
    [ mkFeature "square"%string {["tank_id"%string := PyInt 1]};
      mkFeature "circle"%string {["tank_id"%string := PyInt 2]} ] in
  let data2 : list (Feature string) :=
    [ mkFeature "ellipse"%string {["tank_id"%string := PyInt 2]};
      mkFeature "hexagon"%string {["tank_id"%string := PyInt 3]} ] in
  Merger.unique_ids data1
  ∧ Merger.merged (Merger.merge_tanker_jsons data1 data2)
    = data1 ++
      Merger.unique_features
        (filter (λ f, Merger.get_tank_id f ∉ Merger.get_tank_id <$> data1)
                data2).
Proof.
  intros data1 data2.
  assert (Merger.unique_ids data1) as Hunique.
  { apply (bool_decide_unpack _). vm_compute. exact I. }
  split; [exact Hunique|]. exact (merger_first_file_wins data1 data2 Hunique).
Defined.

(* ===================================================================== *)
(** * Further properties of the fetcher *)
(* ===================================================================== *)

Section AssemblerProperties.
Import Fetcher FetcherNotions.
Context `{Shapely}.
Implicit Types (coords : list Coord) (elements : list RawElement).

Lemma node_coords_cons id el elements :
  node_coords id (el :: elements)
  = match el with
    | ElNode id' lon lat =>
        if decide (id' = id) then (lon, lat) :: node_coords id elements
        else node_coords id elements
    | _ => node_coords id elements
    end.
Proof.
  unfold node_coords. destruct el as [id' lon lat| |]; csimpl; [|done..].
  by destruct (decide (id' = id)).
Qed.

Lemma build_nodes_foldl elements : ∀ (nodes : gmap Z Coord) id,
  foldl (λ nodes el,
           match el with
           | ElNode id lon lat => <[id := (lon, lat)]> nodes
           | _ => nodes
           end) nodes elements !! id
  = match last (node_coords id elements) with
    | Some c => Some c
    | None => nodes !! id
    end.
Proof.
  induction elements as [|el rest IH]; intros nodes id; [done|].
  cbn [foldl]. rewrite IH, node_coords_cons.
  destruct el as [id' lon lat | |]; [|done..].
  destruct (decide (id' = id)) as [->|Hne].
  - destruct (node_coords id rest) as [|c cs] eqn:Hrest.
    + simpl. by rewrite lookup_insert_eq.
    + rewrite last_cons_cons.
      destruct (last (c :: cs)) eqn:Hlast; [done|].
      by apply last_None in Hlast.
  - destruct (last (node_coords id rest)); [done|].
    by rewrite lookup_insert_ne.
Qed.

(** X5.  The node table gives each node id the coordinates of the last
    node element of the body that carries this id, and nothing to an id
    that no node element carries. *)
Theorem build_nodes_last_wins elements (id : Z) :
  build_nodes elements !! id = last (node_coords id elements).
Proof.
  unfold build_nodes. rewrite build_nodes_foldl.
  by destruct (last (node_coords id elements)).
Qed.

(** X6.  Closing a ring yields a ring whose first and last points agree;
    it keeps the given points in front, appends at most one point, and
    does nothing to a ring that is closed already, so closing twice is
    closing once. *)
Theorem close_ring_closes coords :
  head (close_ring coords) = last (close_ring coords)
  ∧ coords `prefix_of` close_ring coords
  ∧ (length (close_ring coords) <= S (length coords))%nat
  ∧ (head coords = last coords → close_ring coords = coords)
  ∧ close_ring (close_ring coords) = close_ring coords.
Proof.
  assert (∀ ring : list Coord,
            head ring = last ring → close_ring ring = ring) as Hclosed.
  { intros ring Heq. unfold close_ring. rewrite <- Heq.
    destruct (head ring) as [first|]; [|done].
    by rewrite decide_False by (intros Hn; by apply Hn). }
  assert (head (close_ring coords) = last (close_ring coords)) as Hends.
  { unfold close_ring.
    destruct (head coords) as [first|] eqn:Hhead.
    - destruct (last coords) as [final|] eqn:Hlast.
      + case_decide as Hne.
        * rewrite last_snoc. destruct coords; [done|]. exact Hhead.
        * congruence.
      + destruct coords; [done|]. by rewrite last_cons in Hlast;
          destruct (last coords).
    - by destruct coords. }
  split; [done|]. split.
  { destruct (close_ring_cases coords) as [-> | (first & _ & ->)];
      [done | by apply prefix_app_r]. }
  split.
  { destruct (close_ring_cases coords) as [-> | (first & _ & ->)];
      [lia | rewrite length_app; simpl; lia]. }
  split; [apply Hclosed|].
  by apply Hclosed.
Qed.

(* A feature built from a way carries the way's id as [tank_id] and the
   region name as [location]; it carries [content] and [substance]
   exactly when the way's tags have them, with the tag's value; it has no
   other property. *)
Lemma way_properties_get (location_name : string) (id : Z)
    (tags : option (gmap string string)) (key : string) :
  way_properties location_name id tags !! key
  = if decide (key = "tank_id"%string) then Some (PyInt id)
    else if decide (key = "location"%string) then Some (PyStr location_name)
    else if decide (key = "content"%string)
         then PyStr <$> (tags ≫= (.!! "content"%string))
    else if decide (key = "substance"%string)
         then PyStr <$> (tags ≫= (.!! "substance"%string))
    else None.
Proof.
  unfold way_properties.
  destruct tags as [tags|]; csimpl.
  - destruct (tags !! "content"%string) as [content|];
      destruct (tags !! "substance"%string) as [substance|]; csimpl;
      repeat case_decide; by simplify_map_eq.
  - repeat case_decide; by simplify_map_eq.
Qed.

Lemma for_each_process_element_ids nodes location_name elements :
  ∀ features,
    ∃ added,
      for_each (process_element nodes location_name) elements features
      = Ok (features ++ added)
      ∧ sublist (Merger.get_tank_id <$> added) (PyInt <$> way_ids elements)
      ∧ Forall (λ f, properties f !! "location"%string
                     = Some (PyStr location_name)) added.
Proof.
  induction elements as [|el rest IH]; intros features.
  { exists []. by rewrite app_nil_r. }
  cbn [for_each].
  assert (way_ids (el :: rest)
          = match el with
            | ElWay id (Some _) _ => id :: way_ids rest
            | _ => way_ids rest
            end) as ->.
  { unfold way_ids. by destruct el as [| ? [?|] ? |]. }
  destruct el as [| id [node_ids|] tags |]; cbn [process_element];
    try (destruct (IH features) as (added & -> & Hsub & Hloc);
         by exists added).
  destruct (validate_silent location_name id tags (resolve nodes node_ids))
    as [[feature|] Hrun]; rewrite Hrun; csimpl.
  - apply validate_Some in Hrun as (_ & poly & g & _ & _ & _ & _ & ->).
    destruct (IH (features ++
                  [mkFeature g (way_properties location_name id tags)]))
      as (added & -> & Hsub & Hloc).
    exists (mkFeature g (way_properties location_name id tags) :: added).
    rewrite <- app_assoc. split; [done|]. split.
    + csimpl. unfold Merger.get_tank_id at 1. cbn [properties].
      rewrite way_properties_get. cbn. by apply sublist_skip.
    + constructor; [|done]. cbn [properties].
      by rewrite way_properties_get.
  - destruct (IH features) as (added & -> & Hsub & Hloc).
    exists added. split; [done|]. split; [|done].
    csimpl. by apply sublist_cons.
Qed.

Lemma assemble_labelled (location_name : string) (data : Response) :
  ∃ features,
    assemble location_name data = Ok features
    ∧ Forall (λ f, properties f !! "location"%string
                   = Some (PyStr location_name)) features.
Proof.
  unfold assemble.
  destruct (for_each_process_element_ids
              (build_nodes (default [] (Fetcher.elements data)))
              location_name (default [] (Fetcher.elements data)) [])
    as (added & -> & _ & Hloc).
  by exists added.
Qed.

(** X7.  Assembling a decoded response body never fails. Its features
    follow the order of the ways of the body: their tank ids form a
    subsequence of the ids of the ways that carry a node list, so nodes,
    relations and ways without nodes yield nothing. Every feature is
    labelled with the region name, and when the ways have pairwise
    distinct ids the result satisfies the PolygonSet invariant. *)
Theorem assemble_follows_ways (location_name : string) (data : Response) :
  ∃ features,
    assemble location_name data = Ok features
    ∧ sublist (Merger.get_tank_id <$> features)
              (PyInt <$> way_ids (default [] (Fetcher.elements data)))
    ∧ Forall (λ f, properties f !! "location"%string
                   = Some (PyStr location_name)) features
    ∧ (NoDup (way_ids (default [] (Fetcher.elements data))) →
       Merger.unique_ids features).
Proof.
  unfold assemble.
  destruct (for_each_process_element_ids
              (build_nodes (default [] (Fetcher.elements data)))
              location_name (default [] (Fetcher.elements data)) [])
    as (added & -> & Hsub & Hloc).
  exists added. split; [done|]. split; [done|]. split; [done|].
  intros Hnd. unfold Merger.unique_ids.
  eapply sublist_NoDup; [|exact Hsub].
  apply NoDup_fmap_2; [|done]. by intros ?? [= ->].
Qed.

End AssemblerProperties.

Section BackoffProperties.
Import Fetcher FetcherNotions.
Context `{Shapely}.
Implicit Types (servers : list string) (network : Network).

Lemma sleeping_app (l k : list event) :
  sleeping (l ++ k) = sleeping l + sleeping k.
Proof.
  induction l as [|[seconds|server query] l IH]; simpl; lia.
Qed.

Lemma sleeping_attempt_effects servers bbox attempt :
  sleeping (attempt_effects servers bbox attempt) = 5 * Z.max 0 attempt.
Proof.
  unfold attempt_effects, backoff.
  destruct (Z.ltb_spec 0 attempt); simpl; lia.
Qed.

Lemma sleeping_attempts servers bbox (n : nat) :
  2 * sleeping (concat (attempt_effects servers bbox <$> range (Z.of_nat n)))
  = 5 * Z.of_nat n * (Z.of_nat n - 1).
Proof.
  unfold range. induction n as [|n IH]; [done|].
  rewrite seqZ_S, fmap_app, concat_app, sleeping_app. csimpl.
  rewrite app_nil_r, sleeping_attempt_effects. nia.
Qed.

Lemma posts_attempts servers bbox (n : Z) :
  length (posts (concat (attempt_effects servers bbox <$> range n)))
  = Z.to_nat n.
Proof.
  rewrite posts_concat_effects, length_fmap. unfold range.
  apply length_seqZ.
Qed.

(** X8.  When the first [k] attempts fail and attempt [k] answers, the
    fetch returns the features assembled from that answer: it makes [k +
    1] posts and sleeps [5 * (1 + ... + k)] seconds of back-off plus the
    two seconds that follow a success. *)
Theorem fetch_returns_first_answer servers network location_name bbox
    max_retries (k : Z) (data : Response) :
  servers ≠ [] →
  0 ≤ k < max_retries →
  (∀ attempt server query,
     attempt < k → ∃ e, network attempt server query = Raise e) →
  (∀ server query, network k server query = Ok data) →
  let run := fetch_tanks_on servers network location_name bbox max_retries in
  fst run = assemble location_name data
  ∧ length (posts (snd run)) = Z.to_nat (k + 1)
  ∧ 2 * sleeping (snd run) = 5 * k * (k + 1) + 4.
Proof.
  intros Hne Hk Hbefore Hat run.
  destruct (assemble_labelled location_name data) as (features & Hdata & _).
  assert (run = (Ok features,
                 concat (attempt_effects servers bbox <$> range (k + 1))
                 ++ [EvSleep 2])) as ->.
  { unfold run, fetch_tanks_on, range.
    replace max_retries with (k + (max_retries - k)) at 2 by lia.
    rewrite seqZ_app by lia.
    rewrite (seqZ_cons (0 + k)) by lia.
    rewrite (seqZ_app 0 k 1) by lia.
    change (seqZ (0 + k) 1) with [0 + k]. rewrite Z.add_0_l.
    apply fetch_loop_first_success; [done| |].
    - intros server query. rewrite Hat. csimpl. exact Hdata.
    - intros attempt [_ Hin]%elem_of_seqZ. split; [lia|].
      intros server query. apply Hbefore. lia. }
  cbn [fst snd]. split; [done|]. split.
  - unfold posts. rewrite omap_app. csimpl. rewrite app_nil_r.
    apply posts_attempts.
  - rewrite sleeping_app.
    pose proof (sleeping_attempts servers bbox (Z.to_nat (k + 1))) as Hsum.
    rewrite Z2Nat.id in Hsum by lia. simpl. nia.
Qed.

(** X9.  A fetch whose attempts all fail, with whatever exception, returns
    the empty list after [max_retries] posts and [5 * (1 + ... +
    (max_retries - 1))] seconds of back-off; with [max_retries <= 0] it
    returns the empty list at once, without a post or a sleep. *)
Theorem fetch_exhausted_backoff servers network location_name bbox
    max_retries :
  servers ≠ [] →
  (∀ attempt server query, ∃ e, network attempt server query = Raise e) →
  let run := fetch_tanks_on servers network location_name bbox max_retries in
  fst run = Ok []
  ∧ length (posts (snd run)) = Z.to_nat max_retries
  ∧ 2 * sleeping (snd run)
    = 5 * Z.max 0 max_retries * (Z.max 0 max_retries - 1)
  ∧ (max_retries ≤ 0 → run = (Ok [], [])).
Proof.
  intros Hne Hdown run.
  assert (run = (Ok [],
                 concat (attempt_effects servers bbox <$> range max_retries)))
    as ->.
  { unfold run, fetch_tanks_on. apply fetch_loop_all_fail; [done..|].
    unfold range. destruct (Z_le_gt_dec max_retries 0).
    - rewrite seqZ_nil by lia. by intros [|??] ???.
    - apply range_last_only. lia. }
  cbn [fst snd]. split; [done|]. split; [apply posts_attempts|]. split.
  - destruct (Z_le_gt_dec max_retries 0).
    + unfold range. rewrite seqZ_nil by lia. simpl. lia.
    + pose proof (sleeping_attempts servers bbox (Z.to_nat max_retries)) as Hsum.
      rewrite Z2Nat.id in Hsum by lia. lia.
  - intros Hnone. unfold range. by rewrite seqZ_nil.
Qed.

End BackoffProperties.

(** Cushing on a network that answers the unit square at the second
    attempt: two posts, five seconds of back-off, two of pause. *)
Lemma fetch_returns_first_answer_witness :
  let run := Fetcher.fetch_tanks (H:=Grid.grid_shapely)
               (Grid.second_try (Grid.body_of Grid.unit_square))
               "Cushing, OK" "35.95,-97.45,36.15,-96.95" 3 in
  fst run = Fetcher.assemble (H:=Grid.grid_shapely) "Cushing, OK"
              (Grid.body_of Grid.unit_square)
  ∧ length (Fetcher.posts (snd run)) = 2%nat
  ∧ FetcherNotions.sleeping (snd run) = 7.
Proof.
  intros run.
  destruct (fetch_returns_first_answer (H:=Grid.grid_shapely)
              Fetcher.OVERPASS_SERVERS
              (Grid.second_try (Grid.body_of Grid.unit_square))
              "Cushing, OK" "35.95,-97.45,36.15,-96.95" 3 1
              (Grid.body_of Grid.unit_square))
    as (Hfeatures & Hposts & Hsleep).
  - discriminate.
  - lia.
  - intros attempt server query Hbefore. exists JSONDecodeError.
    unfold Grid.second_try. by destruct (Z.ltb_spec attempt 1); [|lia].
  - intros server query. reflexivity.
  - split; [exact Hfeatures|]. split; [exact Hposts|].
    change (2 * FetcherNotions.sleeping (snd run) = 5 * 1 * (1 + 1) + 4)
      in Hsleep.
    lia.
Defined.

(** Cushing on a network that is down: three posts, fifteen seconds of
    back-off. *)
Lemma fetch_exhausted_backoff_witness :
  let run := Fetcher.fetch_tanks (H:=Grid.grid_shapely) Grid.always_down
               "Cushing, OK" "35.95,-97.45,36.15,-96.95" 3 in
  fst run = Ok []
  ∧ length (Fetcher.posts (snd run)) = 3%nat
  ∧ FetcherNotions.sleeping (snd run) = 15.
Proof.
  intros run.
  destruct (fetch_exhausted_backoff (H:=Grid.grid_shapely)
              Fetcher.OVERPASS_SERVERS Grid.always_down
              "Cushing, OK" "35.95,-97.45,36.15,-96.95" 3)
    as (Hnone & Hposts & Hsleep & _).
  - discriminate.
  - intros attempt server query. by exists RequestTimeout.
  - split; [exact Hnone|]. split; [exact Hposts|].
    change (2 * FetcherNotions.sleeping (snd run)
            = 5 * Z.max 0 3 * (Z.max 0 3 - 1)) in Hsleep.
    lia.
Defined.

(* ===================================================================== *)
(** * Further properties of the calendar and of the date list *)
(* ===================================================================== *)

Section CalendarProperties.
Import Calendar CalendarNotions.

Lemma all_from_spec (test : Z → bool) (p : positive) : ∀ lo,
  all_from p test lo = true →
  ∀ i, lo ≤ i < lo + Zpos p → test i = true.
Proof.
  induction p as [q IH|q IH|]; intros lo; simpl.
  - intros [[H0 H1]%andb_true_iff H2]%andb_true_iff i Hi.
    destruct (decide (i = lo)) as [->|]; [done|].
    destruct (decide (i < lo + 1 + Zpos q)).
    + apply (IH _ H1). lia.
    + apply (IH _ H2). lia.
  - intros [H1 H2]%andb_true_iff i Hi.
    destruct (decide (i < lo + Zpos q)).
    + apply (IH _ H1). lia.
    + apply (IH _ H2). lia.
  - intros Hlo i Hi. by replace i with lo by lia.
Qed.

Lemma month_day_checked leapyear :
  all_from 365 (month_day_ok leapyear) 0 = true.
Proof. destruct leapyear; vm_compute; reflexivity. Qed.

Lemma month_day_spec n leapyear :
  0 ≤ n < 365 →
  let '(m, d) := month_day n leapyear in
  1 ≤ m ≤ 12
  ∧ 1 ≤ d ≤ table DAYS_IN_MONTH m + (if (m =? 2) && leapyear then 1 else 0)
  ∧ table DAYS_BEFORE_MONTH m + (if (2 <? m) && leapyear then 1 else 0) + d
    = n + 1.
Proof.
  intros Hn.
  pose proof (all_from_spec _ _ _ (month_day_checked leapyear) n) as Hok.
  unfold month_day_ok in Hok.
  destruct (month_day n leapyear) as [m d].
  specialize (Hok ltac:(lia)).
  repeat (apply andb_true_iff in Hok as [Hok ?]).
  lia.
Qed.

Lemma ord2ymd_decompose o :
  ord2ymd o =
    let n := o - 1 in
    let a := n / 146097 in
    let r1 := n mod 146097 in
    let b := r1 / 36524 in
    let r2 := r1 mod 36524 in
    let c := r2 / 1461 in
    let r3 := r2 mod 1461 in
    let e := r3 / 365 in
    let r4 := r3 mod 365 in
    let y := a * 400 + 1 + b * 100 + c * 4 + e in
    if (e =? 4) || (b =? 4) then (y - 1, 12, 31)
    else
      let md := month_day r4 ((e =? 3) && (negb (c =? 24) || (b =? 3))) in
      (y, md.1, md.2).
Proof.
  unfold ord2ymd, month_day, DI400Y, DI100Y, DI4Y. cbv zeta.
  destruct (_ || _); [reflexivity|].
  destruct (_ <? _); reflexivity.
Qed.

Lemma year_decomposition (a b c e : Z) :
  0 ≤ b ≤ 3 → 0 ≤ c ≤ 24 → 0 ≤ e ≤ 3 →
  let y := a * 400 + 1 + b * 100 + c * 4 + e in
  days_before_year y = 146097 * a + 36524 * b + 1461 * c + 365 * e
  ∧ is_leap y = (e =? 3) && (negb (c =? 24) || (b =? 3)).
Proof.
  intros Hb Hc He y. split.
  - unfold days_before_year. subst y.
    replace (a * 400 + 1 + b * 100 + c * 4 + e - 1)
      with (a * 400 + b * 100 + c * 4 + e) by lia.
    Z.div_mod_to_equations. lia.
  - unfold is_leap.
    assert (y mod 4 = 0 ↔ e = 3) as H4
      by (subst y; Z.div_mod_to_equations; lia).
    assert (y mod 100 = 0 ↔ e = 3 ∧ c = 24) as H100
      by (subst y; Z.div_mod_to_equations; lia).
    assert (y mod 400 = 0 ↔ e = 3 ∧ c = 24 ∧ b = 3) as H400
      by (subst y; Z.div_mod_to_equations; lia).
    destruct (Z.eqb_spec (y mod 4) 0), (Z.eqb_spec (y mod 100) 0),
      (Z.eqb_spec (y mod 400) 0), (Z.eqb_spec e 3), (Z.eqb_spec c 24),
      (Z.eqb_spec b 3); simpl; try reflexivity; lia.
Qed.

Lemma days_in_month_flag y m :
  days_in_month y m
  = table DAYS_IN_MONTH m + (if (m =? 2) && is_leap y then 1 else 0).
Proof.
  unfold days_in_month.
  destruct (Z.eqb_spec m 2) as [->|]; simpl; [|lia].
  destruct (is_leap y); reflexivity.
Qed.

Lemma ord2ymd_sound o :
  let '(y, m, d) := ord2ymd o in
  ymd2ord y m d = o ∧ 1 ≤ m ≤ 12 ∧ 1 ≤ d ≤ days_in_month y m.
Proof.
  rewrite ord2ymd_decompose. cbv zeta.
  remember (o - 1) as n eqn:Hn.
  remember (n / 146097) as a eqn:Ha.
  remember (n mod 146097) as r1 eqn:Hr1.
  remember (r1 / 36524) as b eqn:Hb.
  remember (r1 mod 36524) as r2 eqn:Hr2.
  remember (r2 / 1461) as c eqn:Hc.
  remember (r2 mod 1461) as r3 eqn:Hr3.
  remember (r3 / 365) as e eqn:He.
  remember (r3 mod 365) as r4 eqn:Hr4.
  assert (n = 146097 * a + r1 ∧ 0 ≤ r1 < 146097) as [Hn1 Hb1]
    by (subst a r1; Z.div_mod_to_equations; lia).
  assert (r1 = 36524 * b + r2 ∧ 0 ≤ r2 < 36524) as [Hn2 Hb2]
    by (subst b r2; Z.div_mod_to_equations; lia).
  assert (r2 = 1461 * c + r3 ∧ 0 ≤ r3 < 1461) as [Hn3 Hb3]
    by (subst c r3; Z.div_mod_to_equations; lia).
  assert (r3 = 365 * e + r4 ∧ 0 ≤ r4 < 365) as [Hn4 Hb4]
    by (subst e r4; Z.div_mod_to_equations; lia).
  clear Ha Hr1 Hb Hr2 Hc Hr3 He Hr4.
  assert (0 ≤ b ≤ 4 ∧ 0 ≤ c ≤ 24 ∧ 0 ≤ e ≤ 4) as (Hbb & Hcc & Hee) by lia.
  destruct (Z.eqb_spec e 4) as [He4|He4]; simpl.
  { (* the last day of a leap year *)
    assert (b ≤ 3 ∧ c ≤ 23) as [Hb3' Hc23] by lia.
    destruct (year_decomposition a b c 3) as [Hdays Hleap]; [lia..|].
    cbv zeta in Hdays, Hleap.
    replace (a * 400 + 1 + b * 100 + c * 4 + e - 1)
      with (a * 400 + 1 + b * 100 + c * 4 + 3) by lia.
    unfold ymd2ord, days_before_month, days_in_month.
    rewrite Hdays, Hleap.
    change (table DAYS_BEFORE_MONTH 12) with 334.
    change (table DAYS_IN_MONTH 12) with 31.
    destruct (Z.eqb_spec c 24); [lia|]. simpl. lia. }
  destruct (Z.eqb_spec b 4) as [Hfour|Hfour]; simpl.
  { (* the last day of a 400-year cycle *)
    destruct (year_decomposition a 3 24 3) as [Hdays Hleap]; [lia..|].
    cbv zeta in Hdays, Hleap.
    replace (a * 400 + 1 + b * 100 + c * 4 + e - 1)
      with (a * 400 + 1 + 3 * 100 + 24 * 4 + 3) by lia.
    unfold ymd2ord, days_before_month, days_in_month.
    rewrite Hdays, Hleap.
    change (table DAYS_BEFORE_MONTH 12) with 334.
    change (table DAYS_IN_MONTH 12) with 31.
    simpl. lia. }
  destruct (year_decomposition a b c e) as [Hdays Hleap]; [lia..|].
  cbv zeta in Hdays, Hleap.
  pose proof (month_day_spec r4 ((e =? 3) && (negb (c =? 24) || (b =? 3))) Hb4)
    as Hmd.
  destruct (month_day r4 ((e =? 3) && (negb (c =? 24) || (b =? 3))))
    as [m d]. cbn [fst snd].
  destruct Hmd as (Hm & Hd & Hsum).
  rewrite days_in_month_flag. unfold ymd2ord, days_before_month.
  rewrite Hdays, Hleap. lia.
Qed.

Lemma days_before_year_succ y :
  days_before_year (y + 1)
  = days_before_year y + 365 + (if is_leap y then 1 else 0).
Proof.
  unfold days_before_year, is_leap.
  replace (y + 1 - 1) with y by lia.
  destruct (Z.eqb_spec (y mod 4) 0), (Z.eqb_spec (y mod 100) 0),
    (Z.eqb_spec (y mod 400) 0); simpl; Z.div_mod_to_equations; lia.
Qed.

Lemma days_before_year_mono y y' :
  y ≤ y' → days_before_year y ≤ days_before_year y'.
Proof. unfold days_before_year. intros Hle. Z.div_mod_to_equations. lia. Qed.

Ltac each_month m :=
  let Hm := fresh "Hm" in
  assert (m = 1 ∨ m = 2 ∨ m = 3 ∨ m = 4 ∨ m = 5 ∨ m = 6 ∨ m = 7 ∨ m = 8
          ∨ m = 9 ∨ m = 10 ∨ m = 11 ∨ m = 12) as Hm by lia;
  repeat (destruct Hm as [->|Hm]); [..|subst m].

Ltac eval_tables :=
  repeat match goal with
         | |- context [table ?t ?k] =>
             let v := eval vm_compute in (table t k) in
             change (table t k) with v
         end.

Lemma day_of_year_bounds y m d :
  1 ≤ m ≤ 12 → 1 ≤ d ≤ days_in_month y m →
  1 ≤ days_before_month y m + d ≤ 365 + (if is_leap y then 1 else 0).
Proof.
  intros Hm. unfold days_in_month, days_before_month.
  destruct (is_leap y); each_month m; eval_tables; simpl; lia.
Qed.

Lemma month_start_mono y m m' :
  1 ≤ m → m < m' → m' ≤ 12 →
  days_before_month y m + days_in_month y m ≤ days_before_month y m'.
Proof.
  intros H1 Hlt H12. unfold days_in_month, days_before_month.
  destruct (is_leap y); each_month m; each_month m'; try lia;
    eval_tables; simpl; lia.
Qed.

Lemma toordinal_lt a b :
  well_formed a → well_formed b →
  ltb a b = true → toordinal a < toordinal b.
Proof.
  intros [Hma Hda] [Hmb Hdb]. unfold ltb, toordinal, ymd2ord.
  pose proof (day_of_year_bounds _ _ _ Hma Hda) as Ha.
  pose proof (day_of_year_bounds _ _ _ Hmb Hdb) as Hb.
  destruct (Z.ltb_spec (year a) (year b)) as [Hy|Hy]; simpl.
  { intros _.
    pose proof (days_before_year_succ (year a)) as Hsucc.
    pose proof (days_before_year_mono (year a + 1) (year b)) as Hmono.
    lia. }
  destruct (Z.eqb_spec (year a) (year b)) as [Hy'|]; simpl; [|done].
  rewrite Hy' in *.
  destruct (Z.ltb_spec (month a) (month b)) as [Hm|Hm]; simpl.
  { intros _.
    pose proof (month_start_mono (year b) (month a) (month b)) as Hmono.
    lia. }
  destruct (Z.eqb_spec (month a) (month b)) as [Hm'|]; simpl; [|done].
  rewrite Hm' in *. intros Hd%Z.ltb_lt. lia.
Qed.

Lemma ltb_trichotomy a b : a ≠ b → ltb a b = true ∨ ltb b a = true.
Proof.
  destruct a as [ya ma da], b as [yb mb db]. unfold ltb. simpl. intros Hne.
  destruct (Z.ltb_spec ya yb), (Z.ltb_spec yb ya),
    (Z.eqb_spec ya yb), (Z.eqb_spec yb ya),
    (Z.ltb_spec ma mb), (Z.ltb_spec mb ma),
    (Z.eqb_spec ma mb), (Z.eqb_spec mb ma),
    (Z.ltb_spec da db), (Z.ltb_spec db da); simpl; auto; try lia.
  exfalso. apply Hne. f_equal; lia.
Qed.

Lemma ltb_irreflexive a : ltb a a = false.
Proof.
  unfold ltb. rewrite !Z.ltb_irrefl, !Z.eqb_refl. reflexivity.
Qed.

Lemma fromordinal_well_formed o :
  well_formed (fromordinal o) ∧ toordinal (fromordinal o) = o.
Proof.
  pose proof (ord2ymd_sound o) as Hsound.
  unfold fromordinal, toordinal, well_formed.
  destruct (ord2ymd o) as [[y m] d]. simpl. tauto.
Qed.

Lemma toordinal_inj a b :
  well_formed a → well_formed b → toordinal a = toordinal b → a = b.
Proof.
  intros Ha Hb Heq. destruct (decide (a = b)) as [|Hne]; [done|].
  destruct (ltb_trichotomy a b Hne) as [Hlt|Hlt];
    apply toordinal_lt in Hlt; try done; lia.
Qed.

Lemma valid_well_formed d : valid_date d → well_formed d.
Proof. unfold valid_date, well_formed. tauto. Qed.

Lemma valid_ordinal_range d :
  valid_date d → 1 ≤ toordinal d ≤ MAXORDINAL.
Proof.
  intros (Hy & Hm & Hd). unfold toordinal, ymd2ord.
  pose proof (day_of_year_bounds _ _ _ Hm Hd) as Hday.
  pose proof (days_before_year_succ (year d)) as Hsucc.
  pose proof (days_before_year_mono 1 (year d)) as Hlo.
  pose proof (days_before_year_mono (year d + 1) 10000) as Hhi.
  change (days_before_year 1) with 0 in Hlo.
  change (days_before_year 10000) with 3652059 in Hhi.
  unfold MAXORDINAL. lia.
Qed.

Lemma ordinal_range_valid d :
  well_formed d → 1 ≤ toordinal d ≤ MAXORDINAL → valid_date d.
Proof.
  intros [Hm Hd] Hrange. split; [|done].
  unfold toordinal, ymd2ord, MAXORDINAL in Hrange.
  pose proof (day_of_year_bounds _ _ _ Hm Hd) as Hday.
  pose proof (days_before_year_succ (year d)) as Hsucc.
  destruct (Z_lt_le_dec (year d) 1) as [Hlow|Hlow].
  { pose proof (days_before_year_mono (year d + 1) 1) as Hlo.
    change (days_before_year 1) with 0 in Hlo. lia. }
  destruct (Z_lt_le_dec 9999 (year d)) as [Hhigh|Hhigh]; [|lia].
  pose proof (days_before_year_mono 10000 (year d)) as Hhi.
  change (days_before_year 10000) with 3652059 in Hhi. lia.
Qed.

(** Dates and day numbers correspond one to one: every valid date has a
    day number between 1 and [MAXORDINAL] from which [fromordinal] gives
    the date back, and every day number in that range is the day number
    of the valid date [fromordinal] gives. *)
Theorem ordinal_round_trip :
  (∀ d, valid_date d →
        1 ≤ toordinal d ≤ MAXORDINAL ∧ fromordinal (toordinal d) = d)
  ∧ (∀ o, 1 ≤ o ≤ MAXORDINAL →
          valid_date (fromordinal o) ∧ toordinal (fromordinal o) = o).
Proof.
  split.
  - intros d Hd. split; [by apply valid_ordinal_range|].
    destruct (fromordinal_well_formed (toordinal d)) as [Hwf Hord].
    apply toordinal_inj; [done | by apply valid_well_formed | done].
  - intros o Ho. destruct (fromordinal_well_formed o) as [Hwf Hord].
    split; [|done]. apply ordinal_range_valid; [done | by rewrite Hord].
Qed.

(** On valid dates the comparison [<] of the script is the comparison of
    the day numbers. *)
Theorem ltb_is_ordinal_order a b :
  valid_date a → valid_date b →
  (ltb a b = true ↔ toordinal a < toordinal b).
Proof.
  intros Ha%valid_well_formed Hb%valid_well_formed. split.
  - by apply toordinal_lt.
  - intros Hlt. destruct (decide (a = b)) as [->|Hne]; [lia|].
    destruct (ltb_trichotomy a b Hne) as [|Hgt]; [done|].
    apply toordinal_lt in Hgt; [lia | done..].
Qed.

(** Adding [n] days to a valid date gives the valid date whose day number
    is [n] more, and whose weekday is [n] weekdays later, as long as that
    day number lies between 1 and [MAXORDINAL]; otherwise it raises
    [OverflowError]. *)
Theorem add_days d n :
  valid_date d →
  (1 ≤ toordinal d + n ≤ MAXORDINAL →
     ∃ d', add d n = Ok d' ∧ valid_date d'
           ∧ toordinal d' = toordinal d + n
           ∧ weekday d' = (weekday d + n) mod 7)
  ∧ (¬ 1 ≤ toordinal d + n ≤ MAXORDINAL → add d n = Raise OverflowError).
Proof.
  intros Hd. unfold add. split.
  - intros Hrange.
    destruct (fromordinal_well_formed (toordinal d + n)) as [Hwf Hord].
    assert (valid_date (fromordinal (toordinal d + n))) as Hvalid
      by (apply ordinal_range_valid; [done | by rewrite Hord]).
    exists (fromordinal (toordinal d + n)).
    destruct (Z.ltb_spec 0 (toordinal d + n)); [|lia].
    destruct (Z.leb_spec (toordinal d + n) MAXORDINAL); [|lia].
    split; [done|]. split; [done|]. split; [done|].
    unfold weekday. rewrite Hord.
    rewrite Zplus_mod_idemp_l. f_equal. lia.
  - intros Hout.
    destruct (Z.ltb_spec 0 (toordinal d + n)); [|done].
    destruct (Z.leb_spec (toordinal d + n) MAXORDINAL); [lia|done].
Qed.

Lemma fromordinal_toordinal d : valid_date d → fromordinal (toordinal d) = d.
Proof.
  intros Hd. destruct (fromordinal_well_formed (toordinal d)) as [Hwf Hord].
  apply toordinal_inj; [done | by apply valid_well_formed | done].
Qed.

Lemma fromordinal_valid o :
  1 ≤ o ≤ MAXORDINAL → valid_date (fromordinal o).
Proof.
  intros Ho. destruct (fromordinal_well_formed o) as [Hwf Hord].
  apply ordinal_range_valid; [done | by rewrite Hord].
Qed.

Lemma ltb_fromordinal o end_ :
  1 ≤ o ≤ MAXORDINAL → valid_date end_ →
  ltb (fromordinal o) end_ = bool_decide (o < toordinal end_).
Proof.
  intros Ho Hend.
  pose proof (fromordinal_valid o Ho) as Hvalid.
  destruct (fromordinal_well_formed o) as [_ Hord].
  destruct (ltb (fromordinal o) end_) eqn:Hlt.
  - apply toordinal_lt in Hlt; [|by apply valid_well_formed..].
    rewrite bool_decide_eq_true_2; [done | lia].
  - rewrite bool_decide_eq_false_2; [done|]. intros Hbelow.
    destruct (decide (fromordinal o = end_)) as [Heq|Hne].
    + rewrite <- Heq, Hord in Hbelow. lia.
    + destruct (ltb_trichotomy _ _ Hne) as [Habs|Habs]; [congruence|].
      apply toordinal_lt in Habs; [lia | by apply valid_well_formed..].
Qed.

Lemma add_fromordinal o n :
  1 ≤ o + n ≤ MAXORDINAL →
  add (fromordinal o) n = Ok (fromordinal (o + n)).
Proof.
  intros Hrange. unfold add.
  destruct (fromordinal_well_formed o) as [_ ->].
  destruct (Z.ltb_spec 0 (o + n)); [|lia].
  by destruct (Z.leb_spec (o + n) MAXORDINAL); [|lia].
Qed.

End CalendarProperties.

Section GeneralDateList.
Import Calendar CalendarNotions Weekly WeeklyNotions.

Lemma timedelta_small n : Z.abs n ≤ 999999999 → timedelta n = Ok n.
Proof.
  intros Hn. unfold timedelta. by destruct (Z.leb_spec (Z.abs n) 999999999); [|lia].
Qed.

Lemma generate_loop_steps end_ interval :
  valid_date end_ → 0 < interval →
  toordinal end_ + interval ≤ MAXORDINAL + 1 →
  ∀ (count fuel : nat) (c : Z) dates,
    1 ≤ c ≤ MAXORDINAL →
    count = Z.to_nat ((toordinal end_ - c + interval - 1) / interval) →
    (count < fuel)%nat →
    generate_loop fuel (fromordinal c) end_ interval dates
    = Some (Ok (dates ++
                ((λ k : nat, strftime (fromordinal (c + Z.of_nat k * interval)))
                 <$> seq 0 count)))
    ∧ window_starts fuel (fromordinal c) end_ interval
      = (λ k : nat, fromordinal (c + Z.of_nat k * interval)) <$> seq 0 count.
Proof.
  intros Hend Hpos Hroom.
  pose proof (valid_ordinal_range end_ Hend) as Hendrange.
  induction count as [|count IH]; intros fuel c dates Hc Hcount Hfuel;
    (destruct fuel as [|fuel]; [lia|]); cbn [generate_loop window_starts];
    rewrite ltb_fromordinal by done.
  - assert (¬ c < toordinal end_) as Hdone.
    { intros Hlt.
      assert (1 ≤ (toordinal end_ - c + interval - 1) / interval)
        by (apply Z.div_le_lower_bound; lia).
      lia. }
    rewrite bool_decide_eq_false_2 by done. csimpl.
    by rewrite app_nil_r.
  - assert (c < toordinal end_) as Hlt.
    { destruct (Z_lt_le_dec c (toordinal end_)) as [|Hge]; [done|].
      assert ((toordinal end_ - c + interval - 1) / interval ≤ 0)
        by (apply Z.lt_succ_r, Z.div_lt_upper_bound; lia).
      lia. }
    rewrite bool_decide_eq_true_2 by done.
    rewrite timedelta_small by (unfold MAXORDINAL in *; lia). csimpl.
    rewrite add_fromordinal by lia.
    destruct (IH fuel (c + interval) (dates ++ [strftime (fromordinal c)]))
      as [Hloop Hstarts].
    { lia. }
    { replace (toordinal end_ - (c + interval) + interval - 1)
        with ((toordinal end_ - c + interval - 1) + (-1) * interval) by lia.
      rewrite Z.div_add by lia. lia. }
    { lia. }
    assert (∀ (A : Type) (h : Z → A),
              (λ k : nat, h (c + interval + Z.of_nat k * interval))
                <$> seq 0 count
              = (λ k : nat, h (c + Z.of_nat k * interval)) <$> seq 1 count)
      as Hshift.
    { intros A h. rewrite <- fmap_S_seq, <- list_fmap_compose.
      apply list_fmap_ext. intros _ k _. simpl. f_equal. lia. }
    rewrite Hloop, Hstarts.
    rewrite (Hshift _ (λ o, strftime (fromordinal o))), (Hshift _ fromordinal).
    rewrite <- app_assoc. csimpl. by rewrite Z.add_0_r.
Qed.



(** X11.  With an interval that is a multiple of seven days, every window
    start falls on the weekday of the anchor date. *)
Theorem window_starts_keep_weekday start end_ interval fuel :
  valid_date start → valid_date end_ → 0 < interval →
  toordinal end_ + interval ≤ MAXORDINAL + 1 →
  interval mod 7 = 0 →
  (window_count start end_ interval < fuel)%nat →
  Forall (λ d, weekday d = weekday start)
         (window_starts fuel start end_ interval).
Proof.
  intros Hstart Hend Hpos Hroom Hweek Hfuel.
  pose proof (valid_ordinal_range start Hstart) as Hsrange.
  destruct (generate_loop_steps end_ interval Hend Hpos Hroom
              (window_count start end_ interval) fuel
              (toordinal start) [] Hsrange eq_refl Hfuel) as [_ Hstarts].
  rewrite fromordinal_toordinal in Hstarts by done. rewrite Hstarts.
  apply Forall_fmap, Forall_forall. intros k _. simpl. unfold weekday.
  destruct (fromordinal_well_formed (toordinal start + Z.of_nat k * interval))
    as [_ ->].
  apply Z.div_exact in Hweek; [|lia]. rewrite Hweek.
  replace (toordinal start + Z.of_nat k * (7 * (interval / 7)) + 6)
    with (toordinal start + 6 + (Z.of_nat k * (interval / 7)) * 7) by lia.
  by rewrite Z.mod_add.
Qed.

(** X12.  With a zero interval and a start before the end the loop of
    [generate_date_list] never ends: no amount of fuel yields a result. *)
Theorem generate_date_list_zero_interval start end_ fuel :
  valid_date start → ltb start end_ = true →
  generate_date_list fuel start end_ 0 = None.
Proof.
  intros Hstart Hlt.
  pose proof (valid_ordinal_range start Hstart) as Hsrange.
  unfold generate_date_list. generalize (@nil string) as dates.
  induction fuel as [|fuel IH]; intros dates; [done|].
  cbn [generate_loop]. rewrite Hlt. csimpl.
  unfold add. rewrite Z.add_0_r.
  destruct (Z.ltb_spec 0 (toordinal start)); [|lia].
  destruct (Z.leb_spec (toordinal start) MAXORDINAL); [|lia]. simpl.
  rewrite fromordinal_toordinal by done. apply IH.
Qed.

Lemma generate_loop_backwards end_ interval (n : nat) :
  valid_date end_ → interval < 0 → Z.abs interval ≤ 999999999 →
  ∀ c dates,
    1 ≤ c → c < toordinal end_ → c ≤ Z.of_nat n →
    ∃ fuel,
      generate_loop fuel (fromordinal c) end_ interval dates
      = Some (Raise OverflowError).
Proof.
  intros Hend Hneg Hsmall.
  pose proof (valid_ordinal_range end_ Hend) as Herange.
  induction n as [|n IH]; intros c dates Hc Hlt Hn; [lia|].
  destruct (Z_lt_le_dec (c + interval) 1) as [Hout|Hin].
  - exists 1%nat. cbn [generate_loop].
    rewrite ltb_fromordinal, bool_decide_eq_true_2 by (done || lia).
    rewrite timedelta_small by done. csimpl. unfold add.
    destruct (fromordinal_well_formed c) as [_ ->].
    by destruct (Z.ltb_spec 0 (c + interval)); [lia|].
  - destruct (IH (c + interval) (dates ++ [strftime (fromordinal c)]))
      as [fuel Hfuel]; [lia..|].
    exists (S fuel). cbn [generate_loop].
    rewrite ltb_fromordinal, bool_decide_eq_true_2 by (done || lia).
    rewrite timedelta_small by done. csimpl.
    rewrite add_fromordinal by lia. exact Hfuel.
Qed.

(** X13.  With a negative interval and a start before the end,
    [generate_date_list] ends by raising [OverflowError]: it walks back
    until it leaves the calendar. *)
Theorem generate_date_list_negative_interval start end_ interval :
  valid_date start → valid_date end_ → ltb start end_ = true →
  interval < 0 →
  ∃ fuel,
    generate_date_list fuel start end_ interval = Some (Raise OverflowError).
Proof.
  intros Hstart Hend Hlt Hneg.
  destruct (Z_le_gt_dec (Z.abs interval) 999999999) as [Hsmall|Hbig].
  - pose proof (valid_ordinal_range start Hstart) as Hsrange.
    apply toordinal_lt in Hlt as Hord; [|by apply valid_well_formed..].
    destruct (generate_loop_backwards end_ interval
                (Z.to_nat (toordinal start)) Hend Hneg Hsmall
                (toordinal start) []) as [fuel Hfuel]; [lia..|].
    exists fuel. unfold generate_date_list.
    by rewrite fromordinal_toordinal in Hfuel.
  - exists 1%nat. unfold generate_date_list. cbn [generate_loop].
    rewrite Hlt. unfold timedelta.
    by destruct (Z.leb_spec (Z.abs interval) 999999999); [lia|].
Qed.

End GeneralDateList.

(** The configured anchor and end dates and their day numbers. *)
Lemma ordinal_round_trip_witness :
  CalendarNotions.valid_date Weekly.START_DATE
  ∧ Calendar.fromordinal (Calendar.toordinal Weekly.START_DATE)
    = Weekly.START_DATE
  ∧ 1 ≤ 738946 ≤ Calendar.MAXORDINAL
  ∧ Calendar.toordinal (Calendar.fromordinal 738946) = 738946.
Proof.
  assert (CalendarNotions.valid_date Weekly.START_DATE) as Hvalid.
  { apply (bool_decide_unpack _). vm_compute. exact I. }
  assert (1 ≤ 738946 ≤ Calendar.MAXORDINAL) as Hrange.
  { unfold Calendar.MAXORDINAL. lia. }
  split; [exact Hvalid|].
  split; [exact (proj2 (proj1 ordinal_round_trip _ Hvalid))|].
  split; [exact Hrange|].
  exact (proj2 (proj2 ordinal_round_trip _ Hrange)).
Defined.

Lemma ltb_is_ordinal_order_witness :
  CalendarNotions.valid_date Weekly.START_DATE
  ∧ CalendarNotions.valid_date Weekly.END_DATE
  ∧ Calendar.ltb Weekly.START_DATE Weekly.END_DATE = true
  ∧ Calendar.toordinal Weekly.START_DATE < Calendar.toordinal Weekly.END_DATE.
Proof.
  assert (CalendarNotions.valid_date Weekly.START_DATE) as Hstart.
  { apply (bool_decide_unpack _). vm_compute. exact I. }
  assert (CalendarNotions.valid_date Weekly.END_DATE) as Hend.
  { apply (bool_decide_unpack _). vm_compute. exact I. }
  assert (Calendar.ltb Weekly.START_DATE Weekly.END_DATE = true) as Hlt.
  { vm_compute. reflexivity. }
  split; [exact Hstart|]. split; [exact Hend|]. split; [exact Hlt|].
  exact (proj1 (ltb_is_ordinal_order _ _ Hstart Hend) Hlt).
Defined.

(** A week after the anchor date, and ten thousand years after it. *)
Lemma add_days_witness :
  CalendarNotions.valid_date Weekly.START_DATE
  ∧ (∃ d', Calendar.add Weekly.START_DATE 7 = Ok d'
           ∧ Calendar.weekday d' = (Calendar.weekday Weekly.START_DATE + 7) mod 7)
  ∧ Calendar.add Weekly.START_DATE 3652425 = Raise OverflowError.
Proof.
  assert (CalendarNotions.valid_date Weekly.START_DATE) as Hvalid.
  { apply (bool_decide_unpack _). vm_compute. exact I. }
  split; [exact Hvalid|]. split.
  - destruct (proj1 (add_days Weekly.START_DATE 7 Hvalid))
      as (d' & Hadd & _ & _ & Hweekday).
    { apply (bool_decide_unpack _). vm_compute. exact I. }
    exists d'. split; [exact Hadd | exact Hweekday].
  - apply (proj2 (add_days Weekly.START_DATE 3652425 Hvalid)).
    intros [_ Hle]. revert Hle. apply Z.lt_nge, Z.ltb_lt.
    vm_compute. reflexivity.
Defined.


Lemma window_starts_keep_weekday_witness :
  Forall (λ d, Calendar.weekday d = Calendar.weekday Weekly.START_DATE)
         (Weekly.window_starts 10 Weekly.START_DATE Weekly.END_DATE 7).
Proof.
  apply window_starts_keep_weekday.
  - apply (bool_decide_unpack _). vm_compute. exact I.
  - apply (bool_decide_unpack _). vm_compute. exact I.
  - lia.
  - apply Z.leb_le. vm_compute. reflexivity.
  - reflexivity.
  - apply Nat.ltb_lt. vm_compute. reflexivity.
Defined.

Lemma generate_date_list_zero_interval_witness :
  Weekly.generate_date_list 1000 Weekly.START_DATE Weekly.END_DATE 0 = None.
Proof.
  apply generate_date_list_zero_interval.
  - apply (bool_decide_unpack _). vm_compute. exact I.
  - vm_compute. reflexivity.
Defined.

Lemma generate_date_list_negative_interval_witness :
  ∃ fuel,
    Weekly.generate_date_list fuel Weekly.START_DATE Weekly.END_DATE (-7)
    = Some (Raise OverflowError).
Proof.
  apply generate_date_list_negative_interval.
  - apply (bool_decide_unpack _). vm_compute. exact I.
  - apply (bool_decide_unpack _). vm_compute. exact I.
  - vm_compute. reflexivity.
  - lia.
Defined.

(* ===================================================================== *)
(** * Further properties of the weekly statistics script *)
(* ===================================================================== *)

Section LoaderReports.
Import Weekly WeeklyNotions.
Variable ee : EarthEngine.

Lemma load_loop_missing assets : ∀ calls valid missing,
  load_loop ee assets calls valid missing
  = (valid ++ accepted_from ee calls assets,
     missing ++ missing_from ee calls assets,
     (calls + length assets)%nat).
Proof.
  induction assets as [|asset rest IH]; intros calls valid missing; simpl.
  - by rewrite !app_nil_r, Nat.add_0_r.
  - destruct (size_getInfo ee calls (ee_FeatureCollection ee asset))
      as [count|e].
    + destruct (0 <? count); rewrite IH, ?Nat.add_succ_r, <- ?app_assoc; done.
    + destruct e; rewrite IH, ?Nat.add_succ_r, <- ?app_assoc; done.
Qed.

Lemma elem_of_missing_from assets : ∀ calls asset,
  asset ∈ missing_from ee calls assets ↔
  ∃ (i : nat) e,
    assets !! i = Some asset
    ∧ size_getInfo ee (calls + i) (ee_FeatureCollection ee asset) = Raise e.
Proof.
  induction assets as [|a rest IH]; intros calls asset; simpl.
  - split; [by intros ?%elem_of_nil | by intros (i & ? & ? & _)].
  - assert ((∃ (i : nat) e,
               (a :: rest) !! i = Some asset
               ∧ size_getInfo ee (calls + i) (ee_FeatureCollection ee asset)
                 = Raise e)
            ↔ (asset = a
               ∧ ∃ e, size_getInfo ee calls (ee_FeatureCollection ee a) = Raise e)
              ∨ asset ∈ missing_from ee (S calls) rest) as ->.
    { rewrite IH. split.
      - intros ([|i] & e & Hi & Hq).
        + left. injection Hi as <-. rewrite Nat.add_0_r in Hq. eauto.
        + right. exists i, e. simpl in Hi. by rewrite Nat.add_succ_r in Hq.
      - intros [(-> & e & Hq) | (i & e & Hi & Hq)].
        + exists 0%nat, e. by rewrite Nat.add_0_r.
        + exists (S i), e. simpl. by rewrite Nat.add_succ_r. }
    destruct (size_getInfo ee calls (ee_FeatureCollection ee a)) as [count|e].
    + split; [by right | by intros [(_ & ? & ?)|]].
    + rewrite elem_of_cons. split.
      * intros [->|]; [left; eauto | by right].
      * intros [[-> _]|]; [by left | by right].
Qed.

(** X14.  The loader asks every asset for its size exactly once, whatever
    the answers, and once more for the merged collection when at least one
    asset was accepted. It reports as missing exactly the assets whose
    size query raised; an asset that answers 0 is neither accepted nor
    reported missing. *)
Theorem loader_queries_every_asset (assets : list string) :
  snd (load_storage_polygons ee assets)
  = (length assets + (if accepted ee assets is [] then 0 else 1))%nat
  ∧ (load_loop ee assets 0 [] []).1.2 = missing_from ee 0 assets
  ∧ (∀ asset,
       asset ∈ missing_from ee 0 assets ↔
       ∃ (i : nat) e,
         assets !! i = Some asset
         ∧ size_getInfo ee i (ee_FeatureCollection ee asset) = Raise e)
  ∧ (length (accepted ee assets) + length (missing_from ee 0 assets)
     <= length assets)%nat.
Proof.
  split; [|split; [|split]].
  - rewrite load_storage_polygons_unfold.
    destruct (accepted ee assets) as [|first others]; simpl; [lia|].
    destruct (size_getInfo ee _ _); simpl; lia.
  - by rewrite load_loop_missing.
  - intros asset. apply (elem_of_missing_from assets 0%nat).
  - unfold accepted. generalize 0%nat.
    induction assets as [|a rest IH]; intros calls; simpl; [lia|].
    specialize (IH (S calls)).
    destruct (size_getInfo ee calls (ee_FeatureCollection ee a)) as [count|e];
      [destruct (0 <? count)|]; simpl; lia.
Qed.


End LoaderReports.

(* ===================================================================== *)
(** * The pixel mask *)
(* ===================================================================== *)

Section PixelMask.
Import Pixels.

Lemma land_bit_zero (a : Z) (n : Z) :
  0 ≤ n → (Z.land a (Z.shiftl 1 n) = 0 ↔ Z.testbit a n = false).
Proof.
  intros Hn. rewrite Z.shiftl_1_l. split.
  - intros Hland.
    assert (Z.testbit (Z.land a (2 ^ n)) n = false) as Hbit
      by (rewrite Hland; apply Z.bits_0).
    rewrite Z.land_spec, Z.pow2_bits_true, andb_true_r in Hbit by done.
    exact Hbit.
  - intros Hbit. apply Z.bits_inj'. intros m Hm.
    rewrite Z.land_spec, Z.bits_0.
    destruct (decide (m = n)) as [->|Hne].
    + by rewrite Hbit.
    + rewrite (Z.pow2_bits_false n m) by lia. apply andb_false_r.
Qed.

(** X16.  A pixel is kept exactly when neither the cloud bit (10) nor the
    cirrus bit (11) of its QA60 value is set and, when the band SCL is
    available, its class is none of 3, 8, 9 and 11. The mask is always 0
    or 1. *)
Theorem pixel_kept_iff (qa : Z) (scl : option Z) :
  (combined_mask qa scl = 1 ∨ combined_mask qa scl = 0)
  ∧ (combined_mask qa scl ≠ 0 ↔
     Z.testbit qa 10 = false ∧ Z.testbit qa 11 = false
     ∧ ∀ class, scl = Some class →
                class ≠ 3 ∧ class ≠ 8 ∧ class ≠ 9 ∧ class ≠ 11).
Proof.
  pose proof (land_bit_zero qa 10 ltac:(lia)) as H10.
  pose proof (land_bit_zero qa 11 ltac:(lia)) as H11.
  unfold combined_mask, mask, scl_mask, And, eq, neq, bitwiseAnd,
    cloud_bit, cirrus_bit.
  destruct (Z.eqb_spec (Z.land qa (Z.shiftl 1 10)) 0) as [E10|E10],
    (Z.eqb_spec (Z.land qa (Z.shiftl 1 11)) 0) as [E11|E11];
    destruct scl as [class|]; simpl;
    try (destruct (Z.eqb_spec class 3), (Z.eqb_spec class 8),
           (Z.eqb_spec class 9), (Z.eqb_spec class 11); simpl);
    (split; [auto|]); split;
    try (intros _; split; [tauto|]; split; [tauto|];
         intros c [= <-]; lia);
    try done; try (intros _; split; [tauto|]; split; [tauto|]; done);
    try (intros (B10 & B11 & Hc); try tauto;
         try (specialize (Hc _ eq_refl); lia)).
Qed.

End PixelMask.

(* ===================================================================== *)
(** * File names and asset names *)
(* ===================================================================== *)

Section NamingProperties.
Import Naming.

Lemma chars_text l : chars (text l) = l.
Proof. apply list_ascii_of_string_of_list_ascii. Qed.

Lemma text_chars s : text (chars s) = s.
Proof. apply string_of_list_ascii_of_string. Qed.

Lemma chars_app (a b : string) : chars (a +:+ b) = chars a ++ chars b.
Proof. induction a as [|c a IH]; simpl; [done|]. by rewrite IH. Qed.

Lemma lower_char_not_upper (c : ascii) :
  ¬ (65 <= nat_of_ascii (lower_char c) <= 90)%nat.
Proof.
  destruct c as [[] [] [] [] [] [] [] []]; vm_compute; lia.
Qed.

Lemma elem_of_replace c old new s :
  c ∈ replace old new s ↔ (c ∈ s ∧ c ≠ old) ∨ (old ∈ s ∧ c ∈ new).
Proof.
  unfold replace. rewrite list_elem_of_bind. split.
  - intros (a & Hc & Ha). case_decide as Hold.
    + subst a. by right.
    + apply list_elem_of_singleton in Hc as ->. by left.
  - intros [[Hc Hne] | [Hold Hnew]].
    + exists c. rewrite decide_False by done. split; [by left | done].
    + exists old. by rewrite decide_True.
Qed.

Lemma elem_of_safe_chars c s :
  c ∈ safe_chars s →
  c ≠ " "%char ∧ c ≠ ","%char ∧ c ≠ "."%char
  ∧ ¬ (65 <= nat_of_ascii c <= 90)%nat.
Proof.
  unfold safe_chars.
  intros [[H1 Hdot] | [_ H]]%elem_of_replace; [|by apply elem_of_nil in H].
  apply elem_of_replace in H1 as [[H2 Hcomma] | [_ H]];
    [|by apply elem_of_nil in H].
  apply elem_of_replace in H2 as [[Hc Hspace] | [_ Hc]].
  - repeat split; try done.
    apply list_elem_of_fmap in Hc as (a & -> & _).
    apply lower_char_not_upper.
  - apply list_elem_of_singleton in Hc as ->.
    repeat split; try done. vm_compute. lia.
Qed.

Lemma safe_name_clean_dot (location_name : string) :
  "."%char ∈ chars (safe_name location_name) → False.
Proof.
  unfold safe_name. rewrite chars_text.
  intros Hdot%elem_of_safe_chars. by destruct Hdot as (_ & _ & ? & _).
Qed.

(** X17.  The name derived from a location name has no space, no comma, no
    period and no capital letter of the ASCII alphabet. *)
Theorem safe_name_clean (location_name : string) (c : ascii) :
  c ∈ chars (safe_name location_name) →
  c ≠ " "%char ∧ c ≠ ","%char ∧ c ≠ "."%char
  ∧ ¬ (65 <= nat_of_ascii c <= 90)%nat.
Proof.
  unfold safe_name. rewrite chars_text. apply elem_of_safe_chars.
Qed.

Lemma rfind_absent c s : c ∉ s → rfind c s = -1.
Proof.
  induction s as [|a rest IH]; [done|].
  intros [Hne Hrest]%not_elem_of_cons. simpl. rewrite (IH Hrest). simpl.
  by rewrite decide_False.
Qed.

Lemma rfind_bounds c s : -1 ≤ rfind c s < Z.of_nat (length s).
Proof.
  induction s as [|a rest IH]; simpl; [lia|].
  destruct (Z.leb_spec 0 (rfind c rest)); [lia|].
  case_decide; lia.
Qed.

Lemma rfind_last c pre rest :
  c ∉ rest → rfind c (pre ++ c :: rest) = Z.of_nat (length pre).
Proof.
  intros Hrest. induction pre as [|a pre IH].
  - simpl. rewrite (rfind_absent _ _ Hrest). simpl. by rewrite decide_True.
  - cbn [app rfind length]. rewrite IH.
    destruct (Z.leb_spec 0 (Z.of_nat (length pre))); lia.
Qed.

Lemma basename_after_slash pre rest :
  "/"%char ∉ rest → basename (pre ++ "/"%char :: rest) = rest.
Proof.
  intros Hrest. unfold basename. rewrite rfind_last by done.
  replace (Z.to_nat (Z.of_nat (length pre) + 1)) with (length pre + 1)%nat
    by lia.
  rewrite <- drop_drop, drop_app_length. reflexivity.
Qed.

Lemma splitext_simple stem ext :
  stem ≠ [] → "/"%char ∉ stem → "."%char ∉ stem →
  "/"%char ∉ ext → "."%char ∉ ext →
  splitext (stem ++ "."%char :: ext) = (stem, "."%char :: ext).
Proof.
  intros Hstem Hslash Hdot Hslash' Hdot'. unfold splitext.
  rewrite (rfind_absent "/"%char)
    by (rewrite elem_of_app, elem_of_cons; intros [|[|]]; done).
  rewrite rfind_last by done.
  destruct (Z.ltb_spec (-1) (Z.of_nat (length stem))); [|lia].
  destruct stem as [|a stem]; [done|].
  replace (Z.to_nat (Z.of_nat (length (a :: stem)) - (-1 + 1)))
    with (S (length stem)) by (simpl; lia).
  cbn [skip_dots]. rewrite decide_True.
  - rewrite Nat2Z.id, take_app_length, drop_app_length. reflexivity.
  - simpl. intros [= ->]. apply Hdot. by left.
Qed.

(** X18.  The upload script recovers from the path of a region file the
    name under which the region script saved it, and builds the asset id
    from it, whenever that name is not empty and has no slash; these are
    the asset ids the statistics script loads for the configured
    locations. When the name is empty the file is [.geojson] and the
    upload script takes the whole of it for the region name. *)
Theorem upload_recovers_safe_name (location_name : string) :
  (safe_name location_name ≠ ""%string →
   "/"%char ∉ chars (safe_name location_name) →
     region_name (region_filename location_name) = safe_name location_name
     ∧ asset_id (region_filename location_name)
       = "users/2samenpoli/oil-tankers/" +:+ safe_name location_name)
  ∧ (safe_name location_name = ""%string →
       region_name (region_filename location_name) = ".geojson"%string)
  ∧ (asset_id ∘ region_filename ∘ fst) <$> Fetcher.LOCATIONS
    = Weekly.REGION_ASSETS.
Proof.
  assert (chars (region_filename location_name)
          = chars output_dir
            ++ "/"%char :: (chars (safe_name location_name)
                            ++ "."%char :: chars "geojson")) as Hpath.
  { unfold region_filename. rewrite !chars_app. reflexivity. }
  assert (∀ c, c ∈ chars "geojson" → c ≠ "/"%char ∧ c ≠ "."%char) as Hext.
  { intros c Hc. simpl in Hc. set_solver. }
  split; [|split].
  - intros Hne Hslash.
    assert (region_name (region_filename location_name)
            = safe_name location_name) as Hname.
    { unfold region_name. rewrite Hpath, basename_after_slash.
      - rewrite splitext_simple; [apply text_chars|..].
        + intros Hnil. apply Hne.
          by rewrite <- (text_chars (safe_name location_name)), Hnil.
        + done.
        + intros Hdot%safe_name_clean_dot. done.
        + intros Hc. by destruct (Hext _ Hc).
        + intros Hc. by destruct (Hext _ Hc).
      - rewrite elem_of_app, elem_of_cons.
        intros [|[|Hc]]; [done..|]. by destruct (Hext _ Hc). }
    split; [done|]. unfold asset_id. by rewrite Hname.
  - intros Hempty. unfold region_name.
    rewrite Hpath, Hempty, basename_after_slash; [reflexivity|].
    simpl. set_solver.
  - vm_compute. reflexivity.
Qed.

End NamingProperties.

(* ===================================================================== *)
(** * Properties of the two acquisition scripts *)
(* ===================================================================== *)

Section ScriptsProperties.
Import Fetcher FetcherNotions Naming Scripts.
Context `{Shapely}.
Implicit Types (net : Networks) (disk : Disk).

Lemma fetch_loop_labelled servers network location_name bbox max_retries :
  servers ≠ [] →
  ∀ attempts,
    ∃ features,
      fst (fetch_loop servers network location_name bbox max_retries attempts)
      = Ok features
      ∧ Forall (λ f, properties f !! "location"%string
                     = Some (PyStr location_name)) features.
Proof.
  intros Hne attempts. induction attempts as [|attempt rest IH].
  { exists []. by split. }
  destruct (pick_server_nonempty servers attempt Hne) as [Hpick _].
  cbn [fetch_loop]. rewrite Hpick.
  destruct (fetch_loop servers network location_name bbox max_retries rest)
    as [outcome later].
  destruct IH as (features & Hrest & Hlabels). cbn [fst] in Hrest. subst outcome.
  destruct (network attempt _ (build_query bbox)) as [data|e] eqn:Hnet; csimpl.
  - destruct (assemble_labelled location_name data) as (fs & -> & Hfs).
    by exists fs.
  - assert (∃ fs,
              (if attempt =? max_retries - 1
               then (Ok [], backoff attempt
                            ++ [EvPost (default ""%string
                                  (servers !! Z.to_nat
                                     (attempt `mod` Z.of_nat (length servers))))
                                  (build_query bbox)])
               else (Ok features,
                     (backoff attempt
                      ++ [EvPost (default ""%string
                            (servers !! Z.to_nat
                               (attempt `mod` Z.of_nat (length servers))))
                            (build_query bbox)]) ++ later)).1
              = Ok fs
              ∧ Forall (λ f : Feature Geom,
                          properties f !! "location"%string
                          = Some (PyStr location_name)) fs) as Hcase.
    { destruct (attempt =? max_retries - 1); [by exists [] | by exists features]. }
    destruct e; exact Hcase.
Qed.

Lemma fetch_tanks_total (network : Network) location_name bbox :
  ∃ features,
    fst (fetch_tanks network location_name bbox 3) = Ok features
    ∧ Forall (λ f, properties f !! "location"%string
                   = Some (PyStr location_name)) features.
Proof. unfold fetch_tanks, fetch_tanks_on. by apply fetch_loop_labelled. Qed.

Lemma fetched_spec net (location : string * string) :
  fst (fetch_tanks (net location.1) location.1 location.2 3)
  = Ok (fetched net location)
  ∧ Forall (λ f, properties f !! "location"%string
                 = Some (PyStr location.1)) (fetched net location).
Proof.
  unfold fetched.
  destruct (fetch_tanks_total (net location.1) location.1 location.2)
    as (features & -> & Hlabels).
  done.
Qed.

Lemma tanks_in_app (l k : list (string * list (Feature Geom))) :
  tanks_in (l ++ k) = tanks_in l + tanks_in k.
Proof. induction l as [|file l IH]; simpl; lia. Qed.

Lemma save_regions_spec net disk locations : ∀ summary,
  save_regions net disk locations summary
  = Ok {| total_tanks :=
            total_tanks summary
            + tanks_in (filter (λ file, saved disk file = true)
                               (candidate net <$> locations));
          successful_regions :=
            successful_regions summary
            + Z.of_nat (length (filter (λ file, saved disk file = true)
                                       (candidate net <$> locations)));
          written :=
            written summary
            ++ filter (λ file, saved disk file = true)
                      (candidate net <$> locations) |}.
Proof.
  induction locations as [|[location_name bbox] rest IH]; intros summary.
  { simpl. rewrite app_nil_r, !Z.add_0_r. by destruct summary. }
  cbn [save_regions]. rewrite fmap_cons.
  change (candidate net (location_name, bbox))
    with (region_filename location_name, fetched net (location_name, bbox)).
  destruct (fetched_spec net (location_name, bbox)) as [Hfetch _].
  cbn [fst snd] in Hfetch. rewrite Hfetch. clear Hfetch. csimpl.
  destruct (fetched net (location_name, bbox)) as [|feature features].
  { rewrite filter_cons_False by (unfold saved; simpl; done). apply IH. }
  destruct (disk (region_filename location_name) (feature :: features))
    as [[]|e] eqn:Hdisk.
  - rewrite filter_cons_True
      by (unfold saved; cbn [fst snd]; by rewrite Hdisk).
    rewrite IH. cbn [total_tanks successful_regions written].
    rewrite <- app_assoc.
    change (tanks_in ((region_filename location_name, feature :: features)
                      :: ?l))
      with (Z.of_nat (length (feature :: features)) + tanks_in l).
    cbn [length app]. f_equal. f_equal; lia.
  - rewrite filter_cons_False
      by (unfold saved; cbn [fst snd]; rewrite Hdisk; done).
    apply IH.
Qed.

(** X19.  The loop of the region script never aborts, whatever the network
    and the disk do. It writes, in the order of the configured locations,
    one file per location whose fetch returned at least one tank and whose
    write did not raise: never a file without tanks. The two counts of its
    summary are the number of files written, at most the number of
    locations, and the number of tanks in them, at least one per file. *)
Theorem region_script_summary net disk :
  ∃ summary,
    region_script net disk = Ok summary
    ∧ written summary
      = filter (λ file, saved disk file = true) (candidate net <$> LOCATIONS)
    ∧ Forall (λ file, file.2 ≠ [] ∧ disk file.1 file.2 = Ok tt)
             (written summary)
    ∧ successful_regions summary = Z.of_nat (length (written summary))
    ∧ total_tanks summary = tanks_in (written summary)
    ∧ successful_regions summary ≤ Z.of_nat (length LOCATIONS)
    ∧ successful_regions summary ≤ total_tanks summary.
Proof.
  unfold region_script. rewrite save_regions_spec. eexists. split; [done|].
  cbn [written successful_regions total_tanks app].
  set (files := filter (λ file, saved disk file = true)
                       (candidate net <$> LOCATIONS)).
  assert (Forall (λ file, file.2 ≠ [] ∧ disk file.1 file.2 = Ok tt) files)
    as Hfiles.
  { apply Forall_forall. intros file [Hsaved _]%list_elem_of_filter.
    unfold saved in Hsaved. destruct (file.2) as [|f fs]; [done|].
    split; [done|]. by destruct (disk file.1 (f :: fs)) as [[]|]. }
  split; [done|]. split; [done|]. split; [lia|]. split; [lia|]. split.
  - pose proof (length_filter (λ file, saved disk file = true)
                  (candidate net <$> LOCATIONS)) as Hlen.
    rewrite length_fmap in Hlen. fold files in Hlen. lia.
  - rewrite !Z.add_0_l. induction Hfiles as [|file rest [Hne _] _ IH]; [done|].
    cbn [length tanks_in foldr]. fold (tanks_in rest).
    destruct (file.2); [done|]. simpl length. lia.
Qed.

Lemma collect_spec net locations : ∀ all_features,
  collect net locations all_features
  = Ok (all_features ++ concat (fetched net <$> locations)).
Proof.
  induction locations as [|[location_name bbox] rest IH]; intros all_features.
  { simpl. by rewrite app_nil_r. }
  cbn [collect].
  destruct (fetched_spec net (location_name, bbox)) as [Hfetch _].
  cbn [fst snd] in Hfetch. rewrite Hfetch. csimpl.
  by rewrite IH, app_assoc.
Qed.

(** X20.  The combined script never aborts, whatever the network and the
    disk do. It collects the features of all configured locations in
    order, without removing any, each feature labelled with the location
    it was fetched for, and it hands the collection to the disk even when
    it is empty. *)
Theorem combined_script_collects net disk :
  ∃ all_features written,
    combined_script net disk = Ok (all_features, written)
    ∧ all_features = concat (fetched net <$> LOCATIONS)
    ∧ Forall (λ f, ∃ location,
                 location ∈ LOCATIONS
                 ∧ properties f !! "location"%string
                   = Some (PyStr location.1)) all_features
    ∧ (written = true ↔
       disk "data/oil_tanks.geojson"%string all_features = Ok tt).
Proof.
  assert (Forall (λ f, ∃ location,
                    location ∈ LOCATIONS
                    ∧ properties f !! "location"%string
                      = Some (PyStr location.1))
                 (concat (fetched net <$> LOCATIONS))) as Hlabels.
  { apply Forall_forall. intros f Hf.
    apply list_elem_of_In, in_concat in Hf as (fs & Hfs & Hf).
    apply list_elem_of_In in Hfs, Hf.
    apply list_elem_of_fmap in Hfs as (location & -> & Hloc).
    exists location. split; [done|].
    destruct (fetched_spec net location) as [_ Hfetched].
    by apply (proj1 (Forall_forall _ _) Hfetched). }
  unfold combined_script. rewrite collect_spec.
  cbn [mbind result_bind app].
  exists (concat (fetched net <$> LOCATIONS)).
  destruct (disk "data/oil_tanks.geojson"%string
              (concat (fetched net <$> LOCATIONS))) as [[]|e].
  - exists true. by repeat split.
  - exists false. by repeat split.
Qed.

End ScriptsProperties.

(* ===================================================================== *)
(** * Properties of the upload script *)
(* ===================================================================== *)

Section UploadProperties.
Import Naming Upload.
Context {F EF : Type}.
Variable w : World F EF.

Lemma validate_geojson_true (reads : nat) (filepath : string) :
  validate_geojson F EF w reads filepath = true ↔
  ∃ feat feats,
    read_json F EF w reads filepath
    = Ok (mkDoc F (PyStr "FeatureCollection") (Some (feat :: feats))).
Proof.
  unfold validate_geojson. split.
  - destruct (read_json F EF w reads filepath) as [[type features]|e];
      [|by destruct e].
    cbn [doc_type doc_features]. case_decide as Htype; [done|].
    subst type.
    destruct features as [[|feat feats]|]; [done| |done].
    intros _. by exists feat, feats.
  - intros (feat & feats & ->). cbn [doc_type doc_features].
    by rewrite decide_False by (intros Hn; by apply Hn).
Qed.

(** X21.  [upload_region] starts an export only for a file that passed the
    validation: a feature collection with at least one feature, and only
    under the asset id derived from the file's path. It answers [True]
    only when the export task was started and its status could be read. A
    file that fails the validation is read once and nothing else happens;
    any other file is read twice. *)
Theorem upload_region_guards (reads : nat) (filepath : string) :
  let '(uploaded, effects, reads') := upload_region F EF w reads filepath in
  (∀ asset, EvStart asset ∈ effects →
     asset = asset_id filepath
     ∧ ∃ feat feats,
         read_json F EF w reads filepath
         = Ok (mkDoc F (PyStr "FeatureCollection") (Some (feat :: feats))))
  ∧ (uploaded = true →
       EvStart (asset_id filepath) ∈ effects
       ∧ task_start F EF w (asset_id filepath) = Ok tt
       ∧ task_status F EF w (asset_id filepath) = Ok tt)
  ∧ (validate_geojson F EF w reads filepath = false →
       uploaded = false ∧ effects = [EvRead filepath] ∧ reads' = S reads)
  ∧ (validate_geojson F EF w reads filepath = true →
       reads' = S (S reads)
       ∧ filter (λ ev, ev = EvRead filepath) effects
         = [EvRead filepath; EvRead filepath]).
Proof.
  assert (∀ tail, (∀ ev, ev ∈ tail → ev ≠ EvRead filepath) →
            filter (λ ev, ev = EvRead filepath)
                   ([EvRead filepath; EvRead filepath] ++ tail)
            = [EvRead filepath; EvRead filepath]) as Hreads.
  { intros tail Htail. cbn [app]. rewrite !filter_cons_True by done.
    f_equal. f_equal. induction tail as [|ev tail IH]; [done|].
    rewrite filter_cons_False by (apply Htail; left).
    apply IH. intros ev' Hin. apply Htail. by right. }
  pose proof (Hreads [] ltac:(by intros ? ?%elem_of_nil)) as Hreads0.
  pose proof (Hreads [EvStart (asset_id filepath)]
                ltac:(by intros ? ->%list_elem_of_singleton)) as Hreads1.
  rewrite app_nil_r in Hreads0. clear Hreads.
  unfold upload_region.
  destruct (validate_geojson F EF w reads filepath) eqn:Hvalid;
    cbn [negb].
  2: { split; [|done].
       by intros asset [?|[]%elem_of_nil]%elem_of_cons. }
  apply validate_geojson_true in Hvalid.
  assert (∀ asset, EvStart asset ∈ [EvRead filepath; EvRead filepath] →
            asset = asset_id filepath
            ∧ ∃ feat feats,
                read_json F EF w reads filepath
                = Ok (mkDoc F (PyStr "FeatureCollection")
                        (Some (feat :: feats)))) as Hnone.
  { intros asset Hin. exfalso. set_solver. }
  assert (∀ asset,
            EvStart asset ∈ [EvRead filepath; EvRead filepath]
                            ++ [EvStart (asset_id filepath)] →
            asset = asset_id filepath
            ∧ ∃ feat feats,
                read_json F EF w reads filepath
                = Ok (mkDoc F (PyStr "FeatureCollection")
                        (Some (feat :: feats)))) as Honly.
  { intros asset Hin. split; [|done]. set_solver. }
  assert (EvStart (asset_id filepath)
          ∈ [EvRead filepath; EvRead filepath]
            ++ [EvStart (asset_id filepath)]) as Hstarted by set_solver.
  destruct (read_json F EF w (S reads) filepath) as [data|e1];
    [|by split; [exact Hnone|]].
  destruct (convert F EF w data) as [[]|e2]; [|by split; [exact Hnone|]].
  destruct (toAsset F EF w (asset_id filepath)) as [[]|e3];
    [|by split; [exact Hnone|]].
  destruct (task_start F EF w (asset_id filepath)) as [[]|e4];
    [|by split; [exact Honly|]].
  destruct (task_status F EF w (asset_id filepath)) as [[]|e5];
    by split; [exact Honly|].
Qed.

Lemma upload_region_reads (reads : nat) (filepath : string) :
  EvRead filepath ∈ (upload_region F EF w reads filepath).1.2.
Proof.
  unfold upload_region.
  destruct (negb _); [set_solver|].
  repeat (match goal with
          | |- context [match ?x with _ => _ end] => destruct x
          end); cbn [fst snd]; set_solver.
Qed.

Lemma upload_loop_counts files : ∀ reads successful failed trace,
  let '(successful', failed', trace') :=
    upload_loop F EF w files reads successful failed trace in
  successful' + failed' = successful + failed + Z.of_nat (length files)
  ∧ successful ≤ successful' ∧ failed ≤ failed'
  ∧ (∀ ev, ev ∈ trace → ev ∈ trace')
  ∧ (∀ filepath, filepath ∈ files → EvRead filepath ∈ trace').
Proof.
  induction files as [|filepath rest IH];
    intros reads successful failed trace.
  { simpl. repeat split; try lia; [done|]. by intros ? ?%elem_of_nil. }
  cbn [upload_loop].
  pose proof (upload_region_reads reads filepath) as Hread.
  destruct (upload_region F EF w reads filepath) as [[uploaded effects] reads'].
  cbn [fst snd] in Hread.
  destruct uploaded.
  - specialize (IH reads' (successful + 1) failed (trace ++ effects)).
    destruct (upload_loop F EF w rest reads' (successful + 1) failed
                (trace ++ effects)) as [[s' f'] t'].
    destruct IH as (Hsum & Hs & Hf & Hkeep & Hrest).
    cbn [length]. repeat split; try lia.
    + intros ev Hev. apply Hkeep. set_solver.
    + intros fp [->|Hin]%elem_of_cons; [|by apply Hrest].
      apply Hkeep. set_solver.
  - specialize (IH reads' successful (failed + 1) (trace ++ effects)).
    destruct (upload_loop F EF w rest reads' successful (failed + 1)
                (trace ++ effects)) as [[s' f'] t'].
    destruct IH as (Hsum & Hs & Hf & Hkeep & Hrest).
    cbn [length]. repeat split; try lia.
    + intros ev Hev. apply Hkeep. set_solver.
    + intros fp [->|Hin]%elem_of_cons; [|by apply Hrest].
      apply Hkeep. set_solver.
Qed.

(** X22.  [upload_all_regions] answers [False] at once when the
    initialisation fails or when there is no region file, without reading
    anything. Otherwise it tries every file, a failure not stopping the
    others: the two counts add up to the number of files, every file is
    read, and the answer is [True] exactly when no upload failed. *)
Theorem upload_all_regions_counts :
  let '(answer, successful, failed, trace) := upload_all_regions F EF w in
  ((∃ e, ee_Initialize F EF w = Raise e) ∨ glob F EF w = [] →
     answer = false ∧ trace = [EvInitialize]
     ∧ successful = 0 ∧ failed = 0)
  ∧ (ee_Initialize F EF w = Ok tt → glob F EF w ≠ [] →
       successful + failed = Z.of_nat (length (glob F EF w))
       ∧ 0 ≤ successful ∧ 0 ≤ failed
       ∧ (answer = true ↔ failed = 0)
       ∧ ∀ filepath, filepath ∈ glob F EF w → EvRead filepath ∈ trace).
Proof.
  unfold upload_all_regions.
  destruct (ee_Initialize F EF w) as [[]|e]; [|split; [done|done]].
  destruct (glob F EF w) as [|filepath rest] eqn:Hglob; [split; done|].
  pose proof (upload_loop_counts (filepath :: rest) 0 0 0 [EvInitialize])
    as Hloop.
  destruct (upload_loop F EF w (filepath :: rest) 0 0 0 [EvInitialize])
    as [[successful failed] trace].
  destruct Hloop as (Hsum & Hs & Hf & _ & Hread).
  split; [by intros [[? ?]|?]|]. intros _ _.
  split; [lia|]. split; [done|]. split; [done|]. split; [|done].
  destruct (Z.eqb_spec failed 0); split; done.
Qed.

End UploadProperties.

(* ===================================================================== *)
(** * Further instances *)
(* ===================================================================== *)


(** The comma and the space of "Cushing, OK" are gone from its safe
    name. *)
Lemma safe_name_clean_witness :
  "_"%char ∈ Naming.chars (Naming.safe_name "Cushing, OK")
  ∧ "_"%char ≠ ","%char.
Proof.
  assert ("_"%char ∈ Naming.chars (Naming.safe_name "Cushing, OK")) as Hin.
  { vm_compute. do 7 right. left. }
  split; [exact Hin|].
  exact (proj1 (proj2 (safe_name_clean "Cushing, OK" "_" Hin))).
Defined.

(** The region file of Cushing is uploaded under the asset id built
    from its safe name. *)
Lemma upload_recovers_safe_name_witness :
  Naming.safe_name "Cushing, OK" ≠ ""%string
  ∧ ("/"%char ∉ Naming.chars (Naming.safe_name "Cushing, OK"))
  ∧ Naming.asset_id (Naming.region_filename "Cushing, OK")
    = ("users/2samenpoli/oil-tankers/" +:+ Naming.safe_name "Cushing, OK")%string.
Proof.
  assert (Naming.safe_name "Cushing, OK" ≠ ""%string) as Hne.
  { vm_compute. discriminate. }
  assert ("/"%char ∉ Naming.chars (Naming.safe_name "Cushing, OK")) as Hslash.
  { vm_compute. intros Hin. repeat (apply elem_of_cons in Hin as [Hin|Hin];
                                      [discriminate Hin|]).
    by apply elem_of_nil in Hin. }
  split; [exact Hne|]. split; [exact Hslash|].
  exact (proj2 (proj1 (upload_recovers_safe_name "Cushing, OK") Hne Hslash)).
Defined.

(** The region file of Cushing in the sample world is read twice and
    exported; the broken file is read once and nothing is started. *)
Lemma upload_region_guards_witness :
  Upload.validate_geojson nat nat Upload.two_files 0
    "data/regions/cushing_ok.geojson" = true
  ∧ Upload.upload_region nat nat Upload.two_files 0
      "data/regions/cushing_ok.geojson"
    = (true,
       [Upload.EvRead "data/regions/cushing_ok.geojson";
        Upload.EvRead "data/regions/cushing_ok.geojson";
        Upload.EvStart "users/2samenpoli/oil-tankers/cushing_ok"], 2%nat)
  ∧ Upload.task_start nat nat Upload.two_files
      (Naming.asset_id "data/regions/cushing_ok.geojson") = Ok tt.
Proof.
  split; [vm_compute; reflexivity|].
  pose proof (upload_region_guards Upload.two_files 0
                "data/regions/cushing_ok.geojson") as Hguards.
  assert (Upload.upload_region nat nat Upload.two_files 0
            "data/regions/cushing_ok.geojson"
          = (true,
             [Upload.EvRead "data/regions/cushing_ok.geojson";
              Upload.EvRead "data/regions/cushing_ok.geojson";
              Upload.EvStart "users/2samenpoli/oil-tankers/cushing_ok"],
             2%nat)) as Hrun.
  { vm_compute. reflexivity. }
  rewrite Hrun in Hguards. split; [exact Hrun|].
  destruct Hguards as (_ & Htrue & _).
  exact (proj1 (proj2 (Htrue eq_refl))).
Defined.

(** Of the two files of the sample world one is uploaded and one
    fails. *)
Lemma upload_all_regions_counts_witness :
  Upload.ee_Initialize nat nat Upload.two_files = Ok tt
  ∧ Upload.glob nat nat Upload.two_files ≠ []
  ∧ Upload.upload_all_regions nat nat Upload.two_files
    = (false, 1, 1,
       [Upload.EvInitialize;
        Upload.EvRead "data/regions/cushing_ok.geojson";
        Upload.EvRead "data/regions/cushing_ok.geojson";
        Upload.EvStart "users/2samenpoli/oil-tankers/cushing_ok";
        Upload.EvRead "data/regions/broken.geojson"])
  ∧ 1 + 1 = Z.of_nat (length (Upload.glob nat nat Upload.two_files)).
Proof.
  assert (Upload.ee_Initialize nat nat Upload.two_files = Ok tt) as Hinit
    by reflexivity.
  assert (Upload.glob nat nat Upload.two_files ≠ []) as Hfiles by discriminate.
  split; [exact Hinit|]. split; [exact Hfiles|].
  pose proof (upload_all_regions_counts Upload.two_files) as Hcounts.
  assert (Upload.upload_all_regions nat nat Upload.two_files
          = (false, 1, 1,
             [Upload.EvInitialize;
              Upload.EvRead "data/regions/cushing_ok.geojson";
              Upload.EvRead "data/regions/cushing_ok.geojson";
              Upload.EvStart "users/2samenpoli/oil-tankers/cushing_ok";
              Upload.EvRead "data/regions/broken.geojson"])) as Hrun.
  { vm_compute. reflexivity. }
  rewrite Hrun in Hcounts. split; [exact Hrun|].
  exact (proj1 (proj2 Hcounts Hinit Hfiles)).
Defined.
